(** * stellae.flow: prototype-graph extraction, layout wrapper, colours and
      arrow geometry

    A shallow embedding of the plugin's main-thread code ([code.ts]: the
    scanner [scanPrototypeConnections], [findTopFrame], [assignFlowColors],
    [createArrow], the container, the cards and the arrow loop of
    [generateDiagram], [exportDiagram] and the [scan] and [set-tier] branches
    of the message handler) and of the plugin window ([ui.ts]:
    [computeLayout], the click listeners, [updateGraphInfo] and the message
    handler).

    Conventions.
    - Identifiers are [string]s, compared with [===] (decidable equality).
    - A JS [Map] is an insertion-ordered association list ([JsMap]) where the
      order of keys is observable ([nodeMap]); a [Map] that is only read with
      [get] is a [gmap]; a JS [Set] is a [gset].
    - Dimensions reported by the host are rationals (every finite double is
      one); [Math.round] is [floor (x + 1/2)].
    - The arrow geometry uses square roots, so its numbers are the reals
      extended with NaN and the two infinities ([jsnum]); rounding error of
      double arithmetic is not modelled there. *)

From Stdlib Require Import ZArith QArith Qround Reals Lra Lia.
From Stdlib Require Import String Ascii DecimalString.
From Stdlib Require Lqa.
From stdpp Require Import base strings list gmap relations.

Set Warnings "-register-all".

#[local] Close Scope Q_scope.
#[local] Close Scope R_scope.
#[local] Open Scope string_scope.
#[local] Open Scope Z_scope.

(* ===================================================================== *)
(** * JavaScript helpers *)
(* ===================================================================== *)

(** [Math.round] on a finite number: the nearest integer, ties towards
    +infinity. *)
Definition Math_round (q : Q) : Z := Qfloor (q + (1 # 2))%Q.

(** Truthiness of an optional string field: [undefined], [null] and the
    empty string are falsy. *)
Definition truthy (o : option string) : option string :=
  match o with
  | Some s => if decide (s = "") then None else Some s
  | None => None
  end.

(** [o || d] for an optional string. *)
Definition or_default (o : option string) (d : string) : string :=
  match truthy o with
  | Some s => s
  | None => d
  end.

(** [String(n)] for a non-negative integer. *)
Definition String_of_nat (n : nat) : string :=
  NilZero.string_of_uint (Nat.to_uint n).


(** ** Insertion-ordered maps ([Map<string, V>]) *)

Module JsMap.
Section JsMap.
Context {V : Type}.

Definition t := list (string * V).

Definition empty : t := [].

Definition keys (m : t) : list string := m.*1.

Definition values (m : t) : list V := m.*2.

Definition has (k : string) (m : t) : bool := bool_decide (k ∈ keys m).

Fixpoint get (k : string) (m : t) : option V :=
  match m with
  | [] => None
  | (k', v) :: m' => if decide (k = k') then Some v else get k m'
  end.

(** [set] keeps the position of a key that is already present and appends
    a new key at the end. *)
Fixpoint set (k : string) (v : V) (m : t) : t :=
  match m with
  | [] => [(k, v)]
  | (k', v') :: m' =>
      if decide (k = k') then (k, v) :: m' else (k', v') :: set k v m'
  end.
End JsMap.
Arguments t : clear implicits.
End JsMap.

(* ===================================================================== *)
(** * Shared types ([types.ts]) *)
(* ===================================================================== *)

Module FlowNode.
Record t := mk { id : string; name : string; width : Z; height : Z }.
End FlowNode.

Module FlowEdge.
Record t := mk
  { sourceId : string; targetId : string; trigger : string; action : string }.
End FlowEdge.

Module FlowGraph.
Record t := mk
  { nodes : list FlowNode.t;
    edges : list FlowEdge.t;
    startingPointIds : list string }.
End FlowGraph.

Module LayoutNode.
Record t := mk
  { id : string; name : string; x : Z; y : Z; width : Z; height : Z }.
End LayoutNode.

Module Point.
Record t := mk { x : Z; y : Z }.
End Point.

Module LayoutEdge.
Record t := mk
  { sourceId : string; targetId : string; trigger : string; action : string;
    points : list Point.t }.
End LayoutEdge.

Module LayoutResult.
Record t := mk { nodes : list LayoutNode.t; edges : list LayoutEdge.t }.
End LayoutResult.

(** [maxScreens] is a number that is either a count or [Infinity]. *)
Inductive Limit := Finite (n : nat) | Infinity.

Module TierConfig.
Record t := mk
  { maxScreens : Limit;
    flowHighlighting : bool;
    interactionLabels : bool;
    pdfExport : bool }.
End TierConfig.

Module TIERS.
Definition free : TierConfig.t :=
  TierConfig.mk (Finite 10) false false false.
Definition pro : TierConfig.t :=
  TierConfig.mk Infinity true true true.
End TIERS.

(* ===================================================================== *)
(** * The host document *)
(* ===================================================================== *)

(** A node of the document as [findTopFrame] sees it: its own properties and
    its parent pointer. Parent chains are finite by construction. *)
Inductive BaseNode := mkBase
  { node_id : string;
    node_name : string;
    node_type : string;
    node_width : Q;
    node_height : Q;
    parent : option BaseNode }.

Record Trigger := mkTrigger { trigger_type : option string }.

Record Action := mkAction
  { action_type : option string; destinationId : option string }.

Record Reaction := mkReaction
  { r_trigger : option Trigger; r_action : option Action }.

(** A node of the scene tree as [walkNode] sees it. [reactions] and
    [children] are absent ([None]) on node kinds that do not carry them. *)
Inductive SceneNode := mkScene
  { self : BaseNode;
    reactions : option (list Reaction);
    children : option (list SceneNode) }.

Record StartingPoint := mkSP { sp_nodeId : string; sp_name : string }.

Record PageNode := mkPage
  { page_children : list SceneNode;
    flowStartingPoints : option (list StartingPoint) }.

Record Figma := mkFigma
  { currentPage : PageNode;
    getNodeById : string → option BaseNode }.

(* ===================================================================== *)
(** * Prototype connection scanner *)
(* ===================================================================== *)

Definition is_frame_like (ty : string) : bool :=
  bool_decide (ty = "FRAME") || bool_decide (ty = "COMPONENT")
  || bool_decide (ty = "COMPONENT_SET").

(** The [while (current)] loop: recursion on the parent chain. *)
Fixpoint findTopFrame (current : BaseNode) : option BaseNode :=
  match parent current with
  | Some p =>
      if bool_decide (node_type p = "PAGE")
      then (if is_frame_like (node_type current) then Some current else None)
      else findTopFrame p
  | None => None
  end.

(** The two mutable locals of [scanPrototypeConnections]. *)
Record ScanState := mkScan
  { nodeMap : JsMap.t FlowNode.t; edges : list FlowEdge.t }.

(** [if (!nodeMap.has(frame.id)) nodeMap.set(frame.id, {...})]. *)
Definition register (frame : BaseNode) (m : JsMap.t FlowNode.t)
  : JsMap.t FlowNode.t :=
  if JsMap.has (node_id frame) m then m
  else JsMap.set (node_id frame)
         (FlowNode.mk (node_id frame) (node_name frame)
            (Math_round (node_width frame)) (Math_round (node_height frame)))
         m.

(** The body of [for (const reaction of reactions)]. *)
Definition processReaction (figma : Figma) (node : BaseNode)
    (st : ScanState) (reaction : Reaction) : ScanState :=
  match r_action reaction with
  | None => st
  | Some action =>
      match truthy (destinationId action) with
      | None => st
      | Some dest =>
          let sourceFrame := findTopFrame node in
          let destFrame :=
            match getNodeById figma dest with
            | Some destNode => findTopFrame destNode
            | None => None
            end in
          match sourceFrame, destFrame with
          | Some sf, Some df =>
              if bool_decide (node_id sf ≠ node_id df) then
                let m := register df (register sf (nodeMap st)) in
                let triggerType :=
                  or_default (r_trigger reaction ≫= trigger_type) "ON_CLICK" in
                let actionType := or_default (action_type action) "NAVIGATE" in
                mkScan m
                  (edges st ++
                   [FlowEdge.mk (node_id sf) (node_id df) triggerType actionType])%list
              else st
          | _, _ => st
          end
      end
  end.

Fixpoint walkNode (figma : Figma) (node : SceneNode) (st : ScanState)
  {struct node} : ScanState :=
  let st1 :=
    match reactions node with
    | Some rs => foldl (processReaction figma (self node)) st rs
    | None => st
    end in
  match children node with
  | Some cs =>
      (fix walkChildren (cs : list SceneNode) (st : ScanState) : ScanState :=
         match cs with
         | [] => st
         | child :: cs' => walkChildren cs' (walkNode figma child st)
         end) cs st1
  | None => st1
  end.

Definition walkAll (figma : Figma) (cs : list SceneNode) (st : ScanState)
  : ScanState :=
  foldl (λ st child, walkNode figma child st) st cs.

(** Explicit flow starting points that resolve to a registered node. *)
Definition declaredStartingPoints (page : PageNode)
    (m : JsMap.t FlowNode.t) : list string :=
  match flowStartingPoints page with
  | Some sps =>
      sp_nodeId <$> filter (λ sp, JsMap.has (sp_nodeId sp) m = true) sps
  | None => []
  end.

(** Nodes without an incoming edge, in key order of [nodeMap]. *)
Definition inferredStartingPoints (m : JsMap.t FlowNode.t)
    (es : list FlowEdge.t) : list string :=
  let hasIncoming : gset string := list_to_set (FlowEdge.targetId <$> es) in
  filter (λ id, id ∉ hasIncoming) (JsMap.keys m).

Definition scanPrototypeConnections (figma : Figma) : FlowGraph.t :=
  let page := currentPage figma in
  let st := walkAll figma (page_children page) (mkScan JsMap.empty []) in
  let declared := declaredStartingPoints page (nodeMap st) in
  let startingPointIds :=
    if bool_decide (length declared = 0%nat)
    then (declared ++ inferredStartingPoints (nodeMap st) (edges st))%list
    else declared in
  FlowGraph.mk (JsMap.values (nodeMap st)) (edges st) startingPointIds.

(* ===================================================================== *)
(** * Message handler: the [scan] and [set-tier] requests *)
(* ===================================================================== *)

Inductive CodeToUIMessage :=
  | MsgGraph (graph : FlowGraph.t)
  | MsgError (message : string)
  | MsgStatus (message : string).

(** What a request does to the outside world, in order. *)
Inductive Effect :=
  | PostMessage (msg : CodeToUIMessage)
  | Notify (message : string).

Inductive UIToCodeMessage :=
  | ReqScan
  | ReqSetTier (tier : string).

(** [`${limit}`]. *)
Definition String_of_Limit (l : Limit) : string :=
  match l with
  | Finite n => String_of_nat n
  | Infinity => "Infinity"
  end.

(** [n > limit]. *)
Definition exceeds (n : nat) (l : Limit) : bool :=
  match l with
  | Finite m => (m <? n)%nat
  | Infinity => false
  end.

Definition tierLimitMessage (tier : TierConfig.t) (found : nat) : string :=
  "Free tier supports up to " ++ String_of_Limit (TierConfig.maxScreens tier)
  ++ " screens. Found " ++ String_of_nat found
  ++ ". Upgrade to Pro for unlimited.".

Definition emptyGraphMessage : string :=
  "No prototype connections found on this page. Add some prototype links between frames first.".

(** [case 'scan']. *)
Definition handleScan (currentTier : TierConfig.t) (figma : Figma)
  : list Effect :=
  let graph := scanPrototypeConnections figma in
  let n := length (FlowGraph.nodes graph) in
  PostMessage (MsgStatus "Scanning prototype connections...") ::
  if bool_decide (n = 0%nat) then
    [PostMessage (MsgError emptyGraphMessage)]
  else if exceeds n (TierConfig.maxScreens currentTier) then
    [PostMessage (MsgError (tierLimitMessage currentTier n))]
  else
    [PostMessage (MsgGraph graph);
     Notify ("Found " ++ String_of_nat n ++ " screens, "
             ++ String_of_nat (length (FlowGraph.edges graph))
             ++ " connections")].

(** [TIERS[msg.tier] || TIERS.free] on the two own keys of [TIERS]. *)
Definition lookupTier (tier : string) : TierConfig.t :=
  if decide (tier = "pro") then TIERS.pro else TIERS.free.

(** The handler threads the global [currentTier]. *)
Definition onmessage (figma : Figma) (currentTier : TierConfig.t)
    (msg : UIToCodeMessage) : TierConfig.t * list Effect :=
  match msg with
  | ReqScan => (currentTier, handleScan currentTier figma)
  | ReqSetTier tier => (lookupTier tier, [])
  end.



(* ===================================================================== *)
(** * Layout computation ([ui.ts]) *)
(* ===================================================================== *)

Inductive Direction := LR | TB.

Definition CARD_W : Z := 324.
Definition CARD_H : Z := 252.

Module Dagre.

(** The graph-wide settings passed to [setGraph]. *)
Record GraphLabel := mkGraphLabel
  { rankdir : Direction; nodesep : Z; ranksep : Z; marginx : Z; marginy : Z }.

(** The value passed to [setNode]. *)
Record NodeLabel := mkNodeLabel { label : string; width : Z; height : Z }.

(** Everything [computeLayout] tells the library before [dagre.layout(g)]:
    the settings and the [setNode] and [setEdge] calls in program order. *)
Record Input := mkInput
  { graph : GraphLabel;
    setNode : list (string * NodeLabel);
    setEdge : list (string * string) }.

(** What [computeLayout] reads back afterwards: [g.node(id).x],
    [g.node(id).y] and [g.edge(v, w)?.points]. *)
Record Output := mkOutput
  { node_x : string → Q;
    node_y : string → Q;
    edge_points : string → string → option (list (Q * Q)) }.

(** Modelled from the spec: the layered layout algorithm itself ([dagre], a
    third-party dependency that is not part of the sources) is a function
    from what it is told to what can be read back. *)
Definition Engine := Input → Output.

(** The label a node ends up with: the last [setNode] for its id. *)
Definition nodeLabel (i : Input) (v : string) : option NodeLabel :=
  JsMap.get v (reverse (setNode i)).

(** [w] can be reached from [v] along one or more edges. *)
Definition reaches (i : Input) : relation string :=
  tc (λ v w, (v, w) ∈ setEdge i).

(** The coordinate along the layout direction, and a card's extent there. *)
Definition primary (d : Direction) (o : Output) (v : string) : Q :=
  match d with LR => node_x o v | TB => node_y o v end.

Definition extent (d : Direction) (l : NodeLabel) : Z :=
  match d with LR => width l | TB => height l end.

(** Modelled from the spec: the contract of the layered layout (section 4.2:
    ranks follow the edge direction along the primary axis, back edges of
    cycles do not constrain the ranking, consecutive ranks are separated by
    the configured rank separation). For an edge [v -> w] that lies on no
    cycle, the anchor of [w] is at least half of both cards plus [ranksep]
    further along the primary axis than the anchor of [v]. *)
Definition ranks_follow_edges (e : Engine) (i : Input) : Prop :=
  ∀ v w lv lw,
    (v, w) ∈ setEdge i →
    ¬ reaches i w v →
    nodeLabel i v = Some lv →
    nodeLabel i w = Some lw →
    let d := rankdir (graph i) in
    (primary d (e i) v
       + inject_Z (extent d lv + extent d lw) / 2
       + inject_Z (ranksep (graph i))
     <= primary d (e i) w)%Q.

End Dagre.

(** The calls made on [g] before [dagre.layout(g)]. *)
Definition dagreInput (graph : FlowGraph.t) (direction : Direction)
  : Dagre.Input :=
  Dagre.mkInput
    (Dagre.mkGraphLabel direction 80 120 20 20)
    ((λ node, (FlowNode.id node,
               Dagre.mkNodeLabel (FlowNode.name node) CARD_W CARD_H))
       <$> FlowGraph.nodes graph)
    ((λ edge, (FlowEdge.sourceId edge, FlowEdge.targetId edge))
       <$> FlowGraph.edges graph).

Definition computeLayout (dagre : Dagre.Engine) (graph : FlowGraph.t)
    (direction : Direction) : LayoutResult.t :=
  let g := dagre (dagreInput graph direction) in
  let nodes :=
    (λ n, LayoutNode.mk (FlowNode.id n) (FlowNode.name n)
            (Math_round (Dagre.node_x g (FlowNode.id n) - inject_Z CARD_W / 2)%Q)
            (Math_round (Dagre.node_y g (FlowNode.id n) - inject_Z CARD_H / 2)%Q)
            CARD_W CARD_H)
      <$> FlowGraph.nodes graph in
  let edges :=
    (λ e, LayoutEdge.mk (FlowEdge.sourceId e) (FlowEdge.targetId e)
            (FlowEdge.trigger e) (FlowEdge.action e)
            (match Dagre.edge_points g (FlowEdge.sourceId e) (FlowEdge.targetId e) with
             | Some ps => (λ p, Point.mk (Math_round p.1) (Math_round p.2)) <$> ps
             | None => []
             end))
      <$> FlowGraph.edges graph in
  LayoutResult.mk nodes edges.

(* ===================================================================== *)
(** * Flow colours *)
(* ===================================================================== *)

Record RGB := mkRGB { r : Q; g : Q; b : Q }.

Definition green : RGB := mkRGB (18 # 100) (8 # 10) (44 # 100).

Definition FLOW_COLORS : list RGB :=
  [ green;
    mkRGB (91 # 100) (3 # 10) (24 # 100);
    mkRGB (2 # 10) (6 # 10) (86 # 100);
    mkRGB (95 # 100) (61 # 100) (7 # 100);
    mkRGB (56 # 100) (27 # 100) (68 # 100) ].

(** [[...new Set(xs)]]: the distinct elements in order of first appearance. *)
Definition distinct (xs : list string) : list string :=
  foldl (λ seen x, if bool_decide (x ∈ seen) then seen else seen ++ [x])%list
        [] xs.

(** [xs.indexOf(x)]: the first position of [x], or [-1]. *)
Fixpoint indexOf (x : string) (xs : list string) : Z :=
  match xs with
  | [] => -1
  | y :: ys =>
      if decide (x = y) then 0
      else let i := indexOf x ys in if i <? 0 then -1 else 1 + i
  end.

(** [xs[i]]: [undefined] outside the array. *)
Definition array_get {A} (xs : list A) (i : Z) : option A :=
  if i <? 0 then None else xs !! Z.to_nat i.

(** The map key [`${sourceId}-${targetId}`]. *)
Definition edgeKey (sourceId targetId : string) : string :=
  sourceId ++ "-" ++ targetId.

(** The palette index computed for a source id. [%] is JS remainder. *)
Definition colorIndex (sourceNodes : list string) (sourceId : string) : Z :=
  Z.rem (indexOf sourceId sourceNodes) (Z.of_nat (length FLOW_COLORS)).

Definition assignFlowColors (layout : LayoutResult.t)
  : gmap string (option RGB) :=
  let sourceNodes :=
    distinct (LayoutEdge.sourceId <$> LayoutResult.edges layout) in
  foldl (λ (colorMap : gmap string (option RGB)) edge,
           let idx := colorIndex sourceNodes (LayoutEdge.sourceId edge) in
           <[edgeKey (LayoutEdge.sourceId edge) (LayoutEdge.targetId edge)
             := array_get FLOW_COLORS idx]> colorMap)
        ∅ (LayoutResult.edges layout).

(** The colour an edge is drawn with when highlighting is on:
    [flowColors.get(key) || FLOW_COLORS[0]], where [FLOW_COLORS[0]] is
    [green]. *)
Definition edgeColor (flowColors : gmap string (option RGB))
    (edge : LayoutEdge.t) : RGB :=
  match mjoin (flowColors !!
                 edgeKey (LayoutEdge.sourceId edge) (LayoutEdge.targetId edge)) with
  | Some c => c
  | None => green
  end.

(* ===================================================================== *)
(** * Numbers of the arrow geometry *)
(* ===================================================================== *)

(** A JS number without rounding error: a real, an infinity, or NaN. *)
Inductive jsnum := Fin (x : R) | PInf | NInf | NaN.

Module Js.

Definition sign (x : R) : comparison :=
  match total_order_T x 0 with
  | inleft (left _) => Lt
  | inleft (right _) => Eq
  | inright _ => Gt
  end.

Definition neg (a : jsnum) : jsnum :=
  match a with
  | Fin x => Fin (- x)
  | PInf => NInf
  | NInf => PInf
  | NaN => NaN
  end.

Definition add (a b : jsnum) : jsnum :=
  match a, b with
  | NaN, _ | _, NaN => NaN
  | Fin x, Fin y => Fin (x + y)
  | PInf, NInf | NInf, PInf => NaN
  | PInf, _ | _, PInf => PInf
  | NInf, _ | _, NInf => NInf
  end.

Definition sub (a b : jsnum) : jsnum := add a (neg b).

(** An infinity with the sign of [s], NaN for a zero factor. *)
Definition inf_of (s : comparison) : jsnum :=
  match s with Gt => PInf | Lt => NInf | Eq => NaN end.

Definition sign_of (a : jsnum) : comparison :=
  match a with
  | Fin x => sign x
  | PInf => Gt
  | NInf => Lt
  | NaN => Eq
  end.

Definition sign_mul (s t : comparison) : comparison :=
  match s, t with
  | Eq, _ | _, Eq => Eq
  | Gt, Gt | Lt, Lt => Gt
  | _, _ => Lt
  end.

Definition mul (a b : jsnum) : jsnum :=
  match a, b with
  | NaN, _ | _, NaN => NaN
  | Fin x, Fin y => Fin (x * y)
  | _, _ => inf_of (sign_mul (sign_of a) (sign_of b))
  end.

(** Division. A zero divisor counts as [+0]: [0/0] is NaN and [x/0] is the
    infinity with the sign of [x]. *)
Definition div (a b : jsnum) : jsnum :=
  match a, b with
  | NaN, _ | _, NaN => NaN
  | Fin x, Fin y =>
      match sign y with
      | Eq => inf_of (sign x)
      | _ => Fin (x / y)
      end
  | Fin _, _ => Fin 0
  | _, Fin y => inf_of (sign_mul (sign_of a) (match sign y with Eq => Gt | s => s end))
  | _, _ => NaN
  end.

Definition sqrt (a : jsnum) : jsnum :=
  match a with
  | Fin x => match sign x with Lt => NaN | _ => Fin (R_sqrt.sqrt x) end
  | PInf => PInf
  | NInf | NaN => NaN
  end.

(** [Math.min] of two numbers; NaN is contagious. *)
Definition min (a b : jsnum) : jsnum :=
  match a, b with
  | NaN, _ | _, NaN => NaN
  | Fin x, Fin y => Fin (Rmin x y)
  | NInf, _ | _, NInf => NInf
  | PInf, c | c, PInf => c
  end.

(** [Math.min(...xs)]; [Infinity] for no arguments. *)
Definition Math_min (xs : list jsnum) : jsnum := foldr min PInf xs.

Definition of_Z (z : Z) : jsnum := Fin (IZR z).

End Js.

Declare Scope js_scope.
Delimit Scope js_scope with js.
Bind Scope js_scope with jsnum.
Infix "+" := Js.add : js_scope.
Infix "-" := Js.sub : js_scope.
Infix "*" := Js.mul : js_scope.
Infix "/" := Js.div : js_scope.

(* ===================================================================== *)
(** * Arrow geometry *)
(* ===================================================================== *)

(** One command of SVG path data, [M x y] or [L x y]. The template strings
    of the source are kept as the sequence of commands they spell. *)
Inductive PathCmd := M (x y : jsnum) | L (x y : jsnum).

Record VectorPath := mkVectorPath
  { windingRule : string; data : list PathCmd }.

Record VectorNode := mkVector
  { v_name : string;
    v_x : jsnum;
    v_y : jsnum;
    vectorPaths : list VectorPath;
    strokes : list RGB;
    strokeWeight : Z;
    strokeCap : string }.

Section Arrow.
Variables x1 y1 x2 y2 : jsnum.
#[local] Open Scope js_scope.

Definition gap : jsnum := Fin 8.
Definition arrowSize : jsnum := Fin 10.
Definition half : jsnum := Fin (1 / 2).

Definition arrow_dx := x2 - x1.
Definition arrow_dy := y2 - y1.
Definition arrow_len := Js.sqrt (arrow_dx * arrow_dx + arrow_dy * arrow_dy).
Definition arrow_ux := arrow_dx / arrow_len.
Definition arrow_uy := arrow_dy / arrow_len.

(** Shaft end points, shortened by [gap]. *)
Definition arrow_sx := x1 + arrow_ux * gap.
Definition arrow_sy := y1 + arrow_uy * gap.
Definition arrow_ex := x2 - arrow_ux * gap.
Definition arrow_ey := y2 - arrow_uy * gap.

(** Arrow head points. *)
Definition arrow_ax1 :=
  arrow_ex - arrow_ux * arrowSize - arrow_uy * arrowSize * half.
Definition arrow_ay1 :=
  arrow_ey - arrow_uy * arrowSize + arrow_ux * arrowSize * half.
Definition arrow_ax2 :=
  arrow_ex - arrow_ux * arrowSize + arrow_uy * arrowSize * half.
Definition arrow_ay2 :=
  arrow_ey - arrow_uy * arrowSize - arrow_ux * arrowSize * half.

Definition allX := [arrow_sx; arrow_ex; arrow_ax1; arrow_ax2].
Definition allY := [arrow_sy; arrow_ey; arrow_ay1; arrow_ay2].
Definition originX := Js.Math_min allX.
Definition originY := Js.Math_min allY.

Definition createArrow (color : RGB) : VectorNode :=
  let rsx := arrow_sx - originX in
  let rsy := arrow_sy - originY in
  let rex := arrow_ex - originX in
  let rey := arrow_ey - originY in
  let rax1 := arrow_ax1 - originX in
  let ray1 := arrow_ay1 - originY in
  let rax2 := arrow_ax2 - originX in
  let ray2 := arrow_ay2 - originY in
  mkVector "Arrow" originX originY
    [ mkVectorPath "NONZERO" [M rsx rsy; L rex rey];
      mkVectorPath "NONZERO" [M rex rey; L rax1 ray1; M rex rey; L rax2 ray2] ]
    [color] 2 "ROUND".
End Arrow.

(** The x and y coordinates that occur in a vector's path data. *)
Definition cmd_x (c : PathCmd) : jsnum := match c with M x _ | L x _ => x end.
Definition cmd_y (c : PathCmd) : jsnum := match c with M _ y | L _ y => y end.

Definition pathXs (v : VectorNode) : list jsnum :=
  cmd_x <$> (vectorPaths v ≫= data).
Definition pathYs (v : VectorNode) : list jsnum :=
  cmd_y <$> (vectorPaths v ≫= data).

(* ===================================================================== *)
(** * The arrows of [generateDiagram] *)
(* ===================================================================== *)

Definition THUMB_W : Z := 300.
Definition THUMB_H : Z := 200.
Definition PADDING : Z := 40.
Definition CARD_PADDING : Z := 12.

Record Card := mkCard
  { card_x : jsnum; card_y : jsnum; card_width : jsnum; card_height : jsnum }.

Definition neutralColor : RGB := mkRGB (4 # 10) (4 # 10) (45 # 100).

Section Compose.
Variable currentTier : TierConfig.t.
Variable layout : LayoutResult.t.
#[local] Open Scope js_scope.

(** The lower corner of the bounding box of the layout. *)
Definition minX : jsnum :=
  foldl (λ acc n, Js.min acc (Js.of_Z (LayoutNode.x n))) PInf
        (LayoutResult.nodes layout).
Definition minY : jsnum :=
  foldl (λ acc n, Js.min acc (Js.of_Z (LayoutNode.y n))) PInf
        (LayoutResult.nodes layout).

Definition makeCard (n : LayoutNode.t) : Card :=
  mkCard (Js.of_Z (LayoutNode.x n) - minX + Js.of_Z PADDING)
         (Js.of_Z (LayoutNode.y n) - minY + Js.of_Z PADDING)
         (Js.of_Z (THUMB_W + CARD_PADDING * 2))
         (Js.of_Z (THUMB_H + CARD_PADDING * 2 + 40)).

Definition cardMap : gmap string Card :=
  foldl (λ (m : gmap string Card) n, <[LayoutNode.id n := makeCard n]> m)
        ∅ (LayoutResult.nodes layout).

Definition arrowColor (edge : LayoutEdge.t) : RGB :=
  if TierConfig.flowHighlighting currentTier
  then edgeColor (assignFlowColors layout) edge
  else neutralColor.

(** One iteration of the loop over [layout.edges]: nothing when a card is
    missing, otherwise the arrow that is appended to the container. *)
Definition edgeArrow (edge : LayoutEdge.t) : option VectorNode :=
  sourceCard ← cardMap !! LayoutEdge.sourceId edge;
  targetCard ← cardMap !! LayoutEdge.targetId edge;
  Some (createArrow
          (card_x sourceCard + card_width sourceCard)
          (card_y sourceCard + card_height sourceCard / Fin 2)
          (card_x targetCard)
          (card_y targetCard + card_height targetCard / Fin 2)
          (arrowColor edge)).

Definition diagramArrows : list VectorNode :=
  omap edgeArrow (LayoutResult.edges layout).
End Compose.

(** A number that is neither NaN nor infinite. *)
Definition finite (a : jsnum) : Prop := ∃ x, a = Fin x.

(** An arrow whose position and path data are all finite numbers. *)
Definition well_defined (v : VectorNode) : Prop :=
  finite (v_x v) ∧ finite (v_y v)
  ∧ Forall finite (pathXs v) ∧ Forall finite (pathYs v).

(* ===================================================================== *)
(** * Concrete documents and layouts *)
(* ===================================================================== *)

(** No element of the subtree carries an interaction record. *)
Fixpoint noReactions (node : SceneNode) : bool :=
  match reactions node with
  | Some (_ :: _) => false
  | _ =>
      match children node with
      | Some cs =>
          (fix all (cs : list SceneNode) : bool :=
             match cs with
             | [] => true
             | child :: cs' => noReactions child && all cs'
             end) cs
      | None => true
      end
  end.

Module Examples.

Definition PAGE : BaseNode := mkBase "0:1" "Page 1" "PAGE" 0 0 None.

Definition makeFrame (id name : string) (w h : Q) : BaseNode :=
  mkBase id name "FRAME" w h (Some PAGE).

(** An instance inside [frame] with one reaction that leads to [dest]. *)
Definition makeButton (id : string) (frame : BaseNode) (dest : string)
  : SceneNode :=
  mkScene (mkBase id "Button" "INSTANCE" 100 44 (Some frame))
    (Some [mkReaction (Some (mkTrigger (Some "ON_CLICK")))
             (Some (mkAction (Some "NAVIGATE") (Some dest)))])
    None.

Definition byId (frames : list BaseNode) (id : string) : option BaseNode :=
  head (filter (λ f, node_id f = id) frames).

Definition home : BaseNode := makeFrame "1:2" "Home" (751 # 2) (8127 # 10).
Definition details : BaseNode := makeFrame "1:3" "Details" 375 812.

(** One top-level frame, no reactions, declared as a flow starting point. *)
Definition single : Figma :=
  mkFigma
    (mkPage [mkScene home (Some []) (Some [])] (Some [mkSP "1:2" "Flow 1"]))
    (byId [home]).

(** Home -> Details and Details -> Home. *)
Definition cyclic : Figma :=
  mkFigma
    (mkPage [ mkScene home (Some []) (Some [makeButton "1:4" home "1:3"]);
              mkScene details (Some []) (Some [makeButton "1:5" details "1:2"]) ]
            (Some [mkSP "9:9" "Stale flow"]))
    (byId [home; details]).

(** Two buttons of Home that both lead to Details. *)
Definition parallel : Figma :=
  mkFigma
    (mkPage [ mkScene home (Some [])
                (Some [makeButton "1:4" home "1:3"; makeButton "1:6" home "1:3"]);
              mkScene details (Some []) (Some []) ]
            None)
    (byId [home; details]).



(** Two screens and one transition between them. *)
Definition twoCards : FlowGraph.t :=
  FlowGraph.mk
    [FlowNode.mk "1" "Home" 375 812; FlowNode.mk "2" "Details" 375 812]
    [FlowEdge.mk "1" "2" "ON_CLICK" "NAVIGATE"]
    ["1"].

(** A layout engine that is good enough for [twoCards]: node "1" in the
    first rank, every other node in the second, ranks 120 apart, margins of
    20. *)
Definition rowEngine : Dagre.Engine :=
  λ i,
    let rank (v : string) : Q := if decide (v = "1") then 0%Q else 1%Q in
    match Dagre.rankdir (Dagre.graph i) with
    | LR => Dagre.mkOutput (λ v, 182 + 444 * rank v)%Q (λ _, 146%Q)
              (λ _ _, Some [(344%Q, 146%Q); (404%Q, 146%Q); (464%Q, 146%Q)])
    | TB => Dagre.mkOutput (λ _, 182%Q) (λ v, 146 + 372 * rank v)%Q
              (λ _ _, None)
    end.

(** A layout with only edges, all routed through no point. *)
Definition edgesOnly (es : list (string * string)) : LayoutResult.t :=
  LayoutResult.mk []
    ((λ st, LayoutEdge.mk st.1 st.2 "ON_CLICK" "NAVIGATE" []) <$> es).


(** Ids with a dash: the first two edges have different sources and the same
    key "a-b-c". *)
Definition collide : LayoutResult.t :=
  edgesOnly [("a", "b-c"); ("a-b", "c"); ("a", "x")].

(** Two cards side by side, the second starting where the first ends, and
    one edge from the first to the second. *)
Definition touching : LayoutResult.t :=
  LayoutResult.mk
    [ LayoutNode.mk "1:2" "Home" 0 0 324 252;
      LayoutNode.mk "1:3" "Details" 324 0 324 252 ]
    [ LayoutEdge.mk "1:2" "1:3" "ON_CLICK" "NAVIGATE" [] ].

End Examples.

(* ===================================================================== *)
(** * Vocabulary of the statements *)
(* ===================================================================== *)

(** The record a first registration stores for [frame]. *)
Definition registered (frame : BaseNode) : FlowNode.t :=
  FlowNode.mk (node_id frame) (node_name frame)
    (Math_round (node_width frame)) (Math_round (node_height frame)).


(** Keys are unique and every stored node carries its key as its id. *)
Definition map_ok (m : JsMap.t FlowNode.t) : Prop :=
  NoDup (JsMap.keys m) ∧ Forall (λ kv, FlowNode.id kv.2 = kv.1) m.

Definition edge_ok (m : JsMap.t FlowNode.t) (e : FlowEdge.t) : Prop :=
  FlowEdge.sourceId e ≠ FlowEdge.targetId e
  ∧ FlowEdge.sourceId e ∈ JsMap.keys m
  ∧ FlowEdge.targetId e ∈ JsMap.keys m.

Definition scan_ok (st : ScanState) : Prop :=
  map_ok (nodeMap st) ∧ Forall (edge_ok (nodeMap st)) (edges st).

(** The declared starting points of the page that name a node of [ids], in
    declaration order. *)
Definition resolvedMarkers (page : PageNode) (ids : list string)
  : list string :=
  filter (λ id, id ∈ ids) (sp_nodeId <$> default [] (flowStartingPoints page)).

(** The ids among [ids] that are the target of no edge of [es]. *)
Definition withoutIncoming (ids : list string) (es : list FlowEdge.t)
  : list string :=
  filter (λ id, id ∉ FlowEdge.targetId <$> es) ids.

(** The key under which [assignFlowColors] files an edge. *)
Definition keyOf (e : LayoutEdge.t) : string :=
  edgeKey (LayoutEdge.sourceId e) (LayoutEdge.targetId e).

(** One iteration of the loop of [assignFlowColors], for a given choice of
    the colour. *)
Definition fileEdge (value : LayoutEdge.t → option RGB)
    (colorMap : gmap string (option RGB)) (e : LayoutEdge.t)
  : gmap string (option RGB) :=
  <[keyOf e := value e]> colorMap.



(** The shaft and head points of the arrow between two distinct anchors,
    as real numbers: shaft start, shaft end, first and second head point. *)
Section ArrowPoints.
Variables x1 y1 x2 y2 : R.
#[local] Open Scope R_scope.

Definition squaredLength : R :=
  (x2 - x1) * (x2 - x1) + (y2 - y1) * (y2 - y1).
Definition unitX : R := (x2 - x1) / sqrt squaredLength.
Definition unitY : R := (y2 - y1) / sqrt squaredLength.

Definition pointsX : list R :=
  [ x1 + unitX * 8;
    x2 - unitX * 8;
    x2 - unitX * 8 - unitX * 10 - unitY * 10 * (1 / 2);
    x2 - unitX * 8 - unitX * 10 + unitY * 10 * (1 / 2) ].
Definition pointsY : list R :=
  [ y1 + unitY * 8;
    y2 - unitY * 8;
    y2 - unitY * 8 - unitY * 10 + unitX * 10 * (1 / 2);
    y2 - unitY * 8 - unitY * 10 - unitX * 10 * (1 / 2) ].
End ArrowPoints.

(** The arrow between two distinct anchors written with real arithmetic,
    for an origin [(mx, my)]. *)
Definition realArrow (x1 y1 x2 y2 mx my : R) (color : RGB) : VectorNode :=
  let px := pointsX x1 y1 x2 y2 in
  let py := pointsY x1 y1 x2 y2 in
  let rel (ps : list R) (i : nat) (m : R) : jsnum :=
    Fin (nth i ps 0%R - m)%R in
  mkVector "Arrow" (Fin mx) (Fin my)
    [ mkVectorPath "NONZERO"
        [M (rel px 0%nat mx) (rel py 0%nat my);
         L (rel px 1%nat mx) (rel py 1%nat my)];
      mkVectorPath "NONZERO"
        [M (rel px 1%nat mx) (rel py 1%nat my);
         L (rel px 2%nat mx) (rel py 2%nat my);
         M (rel px 1%nat mx) (rel py 1%nat my);
         L (rel px 3%nat mx) (rel py 3%nat my)] ]
    [color] 2 "ROUND".

(** [m] is the least element of [xs]. *)
Definition least (m : R) (xs : list R) : Prop :=
  m ∈ xs ∧ Forall (λ x, (m <= x)%R) xs.

(** The arrow that [createArrow] returns when every number it computes is
    NaN. *)
Definition nanArrow (color : RGB) : VectorNode :=
  mkVector "Arrow" NaN NaN
    [ mkVectorPath "NONZERO" [M NaN NaN; L NaN NaN];
      mkVectorPath "NONZERO" [M NaN NaN; L NaN NaN; M NaN NaN; L NaN NaN] ]
    [color] 2 "ROUND".

(** One transition of the graph leads from [v] to [w]. *)
Definition transition (graph : FlowGraph.t) : relation string :=
  λ v w, ∃ e, e ∈ FlowGraph.edges graph
              ∧ FlowEdge.sourceId e = v ∧ FlowEdge.targetId e = w.

(** Some cycle of the graph runs through the edge [v -> w]: [v] can be
    reached again from [w]. *)
Definition on_cycle (graph : FlowGraph.t) (v w : string) : Prop :=
  tc (transition graph) w v.

(* ===================================================================== *)
(** * Further vocabulary: the scanner *)
(* ===================================================================== *)

(** The node itself followed by its ancestors, nearest first. *)
Fixpoint ancestry (node : BaseNode) : list BaseNode :=
  node :: match parent node with
          | Some p => ancestry p
          | None => []
          end.

(** The node is a direct child of a page. *)
Definition isTopLevel (node : BaseNode) : bool :=
  match parent node with
  | Some p => bool_decide (node_type p = "PAGE")
  | None => false
  end.

(** The nearest of the node and its ancestors that is a direct child of a
    page. *)
Definition topLevelAncestor (node : BaseNode) : option BaseNode :=
  head (filter (λ c, isTopLevel c = true) (ancestry node)).

(** The number of interaction records in a subtree. *)
Fixpoint reactionCount (node : SceneNode) : nat :=
  (length (default [] (reactions node))
   + match children node with
     | Some cs =>
         (fix total (cs : list SceneNode) : nat :=
            match cs with
            | [] => 0
            | child :: cs' => reactionCount child + total cs'
            end) cs
     | None => 0
     end)%nat.

(** An extracted node is the record of a frame-like direct child of a
    page. *)
Definition is_screen (n : FlowNode.t) : Prop :=
  ∃ frame, n = registered frame
           ∧ isTopLevel frame = true
           ∧ is_frame_like (node_type frame) = true.

(** The node is an end of some edge. *)
Definition touched (es : list FlowEdge.t) (id : string) : Prop :=
  Exists (λ e, FlowEdge.sourceId e = id ∨ FlowEdge.targetId e = id) es.

(* ===================================================================== *)
(** * Export ([exportDiagram]) *)
(* ===================================================================== *)

Module Exporter.

(** The parameter type ['png' | 'pdf']. *)
Inductive Format := png | pdf.

Definition formatName (format : Format) : string :=
  match format with png => "png" | pdf => "pdf" end.

(** [format.toUpperCase()]. *)
Definition toUpperCase (format : Format) : string :=
  match format with png => "PNG" | pdf => "PDF" end.

(** The two shapes of [ExportSettings] that are built. *)
Inductive Settings :=
  | SettingsPDF
  | SettingsPNG (scale : Z).

(** What awaiting [exportAsync] gives: the bytes, or a thrown error with
    its message. *)
Inductive Outcome :=
  | Resolves (bytes : list Byte.byte)
  | Rejects (message : string).

(** A child of the diagram page: its name and, when the node kind has one,
    its [exportAsync] method. *)
Record Child := mkChild
  { child_name : string;
    child_exportAsync : option (Settings → Outcome) }.

Inductive Message :=
  | ExportComplete (data : string) (format : Format)
  | Error (message : string).

(** What a request does, in order: calls of [exportAsync], messages to the
    UI and notifications. *)
Inductive Effect :=
  | ExportAsync (settings : Settings)
  | PostMessage (msg : Message)
  | Notify (message : string).

Section exportDiagram.
Variable base64Encode : list Byte.byte → string.
Variable diagramPage : option (list Child).
Variable currentTier : TierConfig.t.

(** [format === 'pdf']. *)
Definition isPdf (format : Format) : bool :=
  match format with pdf => true | png => false end.

Definition settingsFor (format : Format) : Settings :=
  match format with
  | pdf => SettingsPDF
  | png => SettingsPNG 2
  end.

Definition exportDiagram (format : Format) : list Effect :=
  match diagramPage with
  | None =>
      [PostMessage (Error "No diagram to export. Generate one first.")]
  | Some children =>
      let frame :=
        head (filter (λ n, child_name n = "Flow Diagram") children) in
      match frame ≫= child_exportAsync with
      | None => [PostMessage (Error "Flow Diagram frame not found.")]
      | Some exportAsync =>
          if isPdf format && negb (TierConfig.pdfExport currentTier)
          then [PostMessage (Error "PDF export is a Pro feature.")]
          else
            let settings := settingsFor format in
            ExportAsync settings ::
            match exportAsync settings with
            | Resolves bytes =>
                [PostMessage (ExportComplete (base64Encode bytes) format);
                 Notify ("📁 " ++ toUpperCase format ++ " exported!")]
            | Rejects message =>
                [PostMessage (Error ("Export failed: " ++ message))]
            end
      end
  end.
End exportDiagram.

Definition isPost (e : Effect) : bool :=
  match e with PostMessage _ => true | _ => false end.

Definition isExportCall (e : Effect) : bool :=
  match e with ExportAsync _ => true | _ => false end.

Definition isComplete (e : Effect) : bool :=
  match e with PostMessage (ExportComplete _ _) => true | _ => false end.

End Exporter.

Module ExporterExamples.
Import Exporter.

(** A diagram page whose frame exports three bytes. *)
Definition page : list Child :=
  [ mkChild "Notes" None;
    mkChild "Flow Diagram"
      (Some (λ _, Resolves [Byte.x50; Byte.x4e; Byte.x47])) ].

(** A diagram page whose frame fails to export. *)
Definition brokenPage : list Child :=
  [ mkChild "Flow Diagram" (Some (λ _, Rejects "out of memory")) ].

(** A stand-in for [figma.base64Encode]: the number of bytes. *)
Definition encode (bytes : list Byte.byte) : string :=
  String_of_nat (length bytes).

End ExporterExamples.

(* ===================================================================== *)
(** * The container and the cards of [generateDiagram] *)
(* ===================================================================== *)

(** [Math.max] of two numbers; NaN is contagious. *)
Definition Js_max (a b : jsnum) : jsnum :=
  match a, b with
  | NaN, _ | _, NaN => NaN
  | Fin x, Fin y => Fin (Rmax x y)
  | PInf, _ | _, PInf => PInf
  | NInf, c | c, NInf => c
  end.

Section Container.
Variable layout : LayoutResult.t.
#[local] Open Scope js_scope.

(** The upper corner of the bounding box of the layout. *)
Definition maxX : jsnum :=
  foldl (λ acc n,
           Js_max acc (Js.of_Z (LayoutNode.x n) + Js.of_Z THUMB_W
                       + Js.of_Z CARD_PADDING * Fin 2))
        NInf (LayoutResult.nodes layout).
Definition maxY : jsnum :=
  foldl (λ acc n,
           Js_max acc (Js.of_Z (LayoutNode.y n) + Js.of_Z THUMB_H
                       + Js.of_Z CARD_PADDING * Fin 2 + Fin 40))
        NInf (LayoutResult.nodes layout).

(** The two arguments of [container.resize]. *)
Definition containerWidth : jsnum :=
  maxX - minX layout + Js.of_Z PADDING * Fin 2.
Definition containerHeight : jsnum :=
  maxY - minY layout + Js.of_Z PADDING * Fin 2.

(** The cards appended to the container, in order. *)
Definition cards : list Card := makeCard layout <$> LayoutResult.nodes layout.
End Container.

(** [m] is the greatest element of [xs]. *)
Definition greatest (m : R) (xs : list R) : Prop :=
  m ∈ xs ∧ Forall (λ x, (x <= m)%R) xs.

(** Both ends of the edge are ids of layout nodes. *)
Definition hasCards (layout : LayoutResult.t) (e : LayoutEdge.t) : Prop :=
  LayoutEdge.sourceId e ∈ LayoutNode.id <$> LayoutResult.nodes layout
  ∧ LayoutEdge.targetId e ∈ LayoutNode.id <$> LayoutResult.nodes layout.

(* ===================================================================== *)
(** * The plugin window ([ui.ts]) *)
(* ===================================================================== *)

Module Ui.

(** [CodeToUIMessage]: what the window receives from the plugin. *)
Inductive Message :=
  | Graph (graph : FlowGraph.t)
  | GenerationComplete
  | ExportComplete (data : string) (format : Exporter.Format)
  | Error (message : string)
  | Status (message : string).

(** [UIToCodeMessage]: what the window posts to the plugin. *)
Inductive Request :=
  | Scan
  | Generate (layout : LayoutResult.t) (direction : Direction)
  | Export (format : Exporter.Format)
  | SetTier (tier : string).

(** The second argument of [showStatus]. *)
Inductive StatusType := st_info | st_error | st_success.

Inductive Effect :=
  | PostMessage (req : Request)
  | ShowStatus (message : string) (type : StatusType)
  | DownloadFile (data : string) (format : Exporter.Format).

(** What [updateGraphInfo] writes into the [graph-info] section: the three
    counters and, for every row of the node list, the name and whether the
    row carries the Start badge. *)
Record GraphInfo := mkGraphInfo
  { stat_screens : nat;
    stat_connections : nat;
    stat_flows : nat;
    node_list : list (string * bool) }.

(** The three module variables, and the part of the document that the
    handlers write: the [graph-info] section ([None] while it is hidden) and
    the [disabled] flag of three buttons. *)
Record State := mkState
  { currentGraph : option FlowGraph.t;
    currentDirection : Direction;
    currentTier : string;
    graph_info : option GraphInfo;
    btn_generate_disabled : bool;
    btn_export_png_disabled : bool;
    btn_export_pdf_disabled : bool }.

(** The two buttons of class [tier-toggle]. *)
Inductive TierToggle := toggle_free | toggle_pro.

(** [dataset.tier] of the button. *)
Definition data_tier (btn : TierToggle) : string :=
  match btn with toggle_free => "free" | toggle_pro => "pro" end.

(** What can happen to the window: a click on one of its buttons, or a
    message event; [Receive None] is an event without [pluginMessage] or
    with a [type] that is none of the five.  A handler is modelled whether or
    not its button is disabled. *)
Inductive Event :=
  | ClickScan
  | ClickGenerate
  | ClickExportPng
  | ClickExportPdf
  | ClickDirection (dir : Direction)
  | ClickTier (btn : TierToggle)
  | Receive (msg : option Message).

Section Window.
Variable dagre : Dagre.Engine.

(** [render()] replaces the whole document of the window: the section is
    hidden and the three buttons are disabled again. *)
Definition render (s : State) : State :=
  mkState (currentGraph s) (currentDirection s) (currentTier s)
          None true true true.

Definition graphInfo (graph : FlowGraph.t) : GraphInfo :=
  mkGraphInfo
    (length (FlowGraph.nodes graph))
    (length (FlowGraph.edges graph))
    (length (FlowGraph.startingPointIds graph))
    ((λ n, (FlowNode.name n,
            bool_decide (FlowNode.id n ∈ FlowGraph.startingPointIds graph)))
       <$> FlowGraph.nodes graph).

Definition updateGraphInfo (graph : FlowGraph.t) (s : State) : State :=
  mkState (currentGraph s) (currentDirection s) (currentTier s)
          (Some (graphInfo graph))
          false (btn_export_png_disabled s) (btn_export_pdf_disabled s).

(** [window.onmessage]. *)
Definition onmessage (s : State) (msg : option Message)
  : State * list Effect :=
  match msg with
  | None => (s, [])
  | Some (Graph graph) =>
      let s1 :=
        mkState (Some graph) (currentDirection s) (currentTier s)
                (graph_info s) (btn_generate_disabled s)
                (btn_export_png_disabled s) (btn_export_pdf_disabled s) in
      (updateGraphInfo graph s1,
       [ShowStatus ("Found "
                    ++ String_of_nat (length (FlowGraph.nodes graph))
                    ++ " screens") st_success])
  | Some GenerationComplete =>
      (mkState (currentGraph s) (currentDirection s) (currentTier s)
               (graph_info s) (btn_generate_disabled s)
               false
               (if decide (currentTier s = "pro") then false
                else btn_export_pdf_disabled s),
       [ShowStatus "Diagram generated! ✨" st_success])
  | Some (ExportComplete data format) =>
      (s, [DownloadFile data format;
           ShowStatus (Exporter.toUpperCase format ++ " exported!")
                      st_success])
  | Some (Error message) => (s, [ShowStatus message st_error])
  | Some (Status message) => (s, [ShowStatus message st_info])
  end.

(** The click listeners bound by [bindEvents], and the message handler. *)
Definition step (s : State) (ev : Event) : State * list Effect :=
  match ev with
  | ClickScan =>
      (s, [PostMessage Scan; ShowStatus "Scanning..." st_info])
  | ClickGenerate =>
      match currentGraph s with
      | None => (s, [])
      | Some graph =>
          let layout := computeLayout dagre graph (currentDirection s) in
          (s, [PostMessage (Generate layout (currentDirection s));
               ShowStatus "Generating diagram..." st_info])
      end
  | ClickExportPng => (s, [PostMessage (Export Exporter.png)])
  | ClickExportPdf =>
      if decide (currentTier s = "pro")
      then (s, [PostMessage (Export Exporter.pdf)])
      else (s, [])
  | ClickDirection dir =>
      (mkState (currentGraph s) dir (currentTier s) (graph_info s)
               (btn_generate_disabled s) (btn_export_png_disabled s)
               (btn_export_pdf_disabled s),
       [])
  | ClickTier btn =>
      let tier := or_default (Some (data_tier btn)) "free" in
      let s1 :=
        mkState (currentGraph s) (currentDirection s) tier (graph_info s)
                (btn_generate_disabled s) (btn_export_png_disabled s)
                (btn_export_pdf_disabled s) in
      (render s1, [PostMessage (SetTier tier)])
  | Receive msg => onmessage s msg
  end.

(** The window after the module has been loaded: the initial values of the
    variables and the first [render()]. *)
Definition init : State :=
  render (mkState None LR "free" None true true true).

(** The window after a sequence of events, with everything it did. *)
Definition run (events : list Event) : State * list Effect :=
  foldl (λ acc ev, let r := step acc.1 ev in (r.1, (acc.2 ++ r.2)%list))
        (init, []) events.

End Window.

(** The requests among the effects, in order. *)
Definition posted (effects : list Effect) : list Request :=
  omap (λ eff, match eff with PostMessage req => Some req | _ => None end)
       effects.


(** The graphs received, the directions and the tiers chosen, in order. *)
Definition graphsReceived (events : list Event) : list FlowGraph.t :=
  omap (λ ev, match ev with Receive (Some (Graph g)) => Some g | _ => None end)
       events.
Definition directionsChosen (events : list Event) : list Direction :=
  omap (λ ev, match ev with ClickDirection d => Some d | _ => None end) events.
Definition tiersChosen (events : list Event) : list string :=
  omap (λ ev, match ev with ClickTier b => Some (data_tier b) | _ => None end)
       events.

End Ui.

(** The plugin's [currentTier] after it has handled a request of the window:
    only the [set-tier] branch of [figma.ui.onmessage] assigns it. *)
Definition tierAfter (tier : TierConfig.t) (req : Ui.Request) : TierConfig.t :=
  match req with
  | Ui.SetTier t => lookupTier t
  | _ => tier
  end.

(* ===================================================================== *)
(** * Properties of the scanner *)
(* ===================================================================== *)

(** Induction over the scene tree. *)
Lemma SceneNode_tree_ind (P : SceneNode → Prop) :
  (∀ s rs cs, Forall P (default [] cs) → P (mkScene s rs cs)) →
  ∀ node, P node.
Proof.
  intros step. fix IH 1. intros [s rs cs]. apply step.
  destruct cs as [cs|]; simpl; [|constructor].
  induction cs as [|c cs IHcs]; constructor; [apply IH | exact IHcs].
Qed.

Lemma walkNode_unfold figma node st :
  walkNode figma node st =
  walkAll figma (default [] (children node))
    (foldl (processReaction figma (self node)) st (default [] (reactions node))).
Proof.
  destruct node as [s rs cs]; simpl.
  destruct rs as [rs|], cs as [cs|]; simpl; try reflexivity.
  - generalize (foldl (processReaction figma s) st rs).
    induction cs as [|c cs IH]; intros st'; simpl; [reflexivity|apply IH].
  - generalize st. induction cs as [|c cs IH]; intros st'; simpl;
      [reflexivity|apply IH].
Qed.

(** ** The insertion-ordered map *)

Section JsMapFacts.
Context {V : Type}.
Implicit Types (m : JsMap.t V) (k : string) (v : V).

Lemma has_true k m : JsMap.has k m = true ↔ k ∈ JsMap.keys m.
Proof. unfold JsMap.has. apply bool_decide_eq_true. Qed.

Lemma has_false k m : JsMap.has k m = false ↔ k ∉ JsMap.keys m.
Proof. unfold JsMap.has. apply bool_decide_eq_false. Qed.

Lemma set_fresh k v m :
  k ∉ JsMap.keys m → JsMap.set k v m = (m ++ [(k, v)])%list.
Proof.
  induction m as [|[k' v'] m IH]; simpl; intros Hk; [reflexivity|].
  apply not_elem_of_cons in Hk as [Hne Hk].
  destruct (decide (k = k')); [contradiction|]. by rewrite IH.
Qed.



End JsMapFacts.

(** ** Registration *)

Lemma register_old frame m :
  node_id frame ∈ JsMap.keys m → register frame m = m.
Proof. intros H. unfold register. apply has_true in H. by rewrite H. Qed.

Lemma register_new frame m :
  node_id frame ∉ JsMap.keys m →
  register frame m = (m ++ [(node_id frame, registered frame)])%list.
Proof.
  intros H. unfold register. pose proof H as H'. apply has_false in H'.
  rewrite H'. by apply set_fresh.
Qed.

Lemma register_cases frame m :
  register frame m = m ∧ node_id frame ∈ JsMap.keys m
  ∨ register frame m = (m ++ [(node_id frame, registered frame)])%list
    ∧ node_id frame ∉ JsMap.keys m.
Proof.
  destruct (decide (node_id frame ∈ JsMap.keys m)) as [H|H].
  - left. split; [by apply register_old | done].
  - right. split; [by apply register_new | done].
Qed.


Lemma register_registers frame m : node_id frame ∈ JsMap.keys (register frame m).
Proof.
  destruct (register_cases frame m) as [[-> H]|[-> _]]; [done|].
  unfold JsMap.keys. rewrite fmap_app. apply elem_of_app. right.
  apply list_elem_of_here.
Qed.

Lemma register_keys_mono frame m k :
  k ∈ JsMap.keys m → k ∈ JsMap.keys (register frame m).
Proof.
  intros H. destruct (register_cases frame m) as [[-> _]|[-> _]]; [done|].
  unfold JsMap.keys. rewrite fmap_app. apply elem_of_app. by left.
Qed.


Lemma register_ok frame m : map_ok m → map_ok (register frame m).
Proof.
  intros [Hnd Hid].
  destruct (register_cases frame m) as [[-> _]|[-> Hfresh]]; [done|].
  split.
  - unfold JsMap.keys. rewrite fmap_app. apply NoDup_app. split; [done|].
    split; [|apply NoDup_singleton].
    intros k Hk Hk'. apply list_elem_of_singleton in Hk'. by subst.
  - apply Forall_app. split; [done|]. by constructor.
Qed.

Lemma map_ok_ids m : map_ok m → FlowNode.id <$> JsMap.values m = JsMap.keys m.
Proof.
  intros [_ Hid]. unfold JsMap.values, JsMap.keys.
  induction m as [|[k v] m IH]; simpl in *; [done|].
  apply Forall_cons in Hid as [Hkv Hid]. simpl in Hkv.
  f_equal; [exact Hkv | by apply IH].
Qed.

(** ** Invariants of the walk *)

Lemma foldl_preserves {A B} (P : A → Prop) (f : A → B → A) (l : list B) a :
  (∀ a b, P a → P (f a b)) → P a → P (foldl f a l).
Proof.
  intros Hf. revert a. induction l as [|b l IH]; simpl; intros a Ha; [done|].
  apply IH, Hf, Ha.
Qed.

(** Whatever every reaction preserves, the whole walk preserves. *)
Lemma walkNode_preserves figma (P : ScanState → Prop) :
  (∀ node st reaction, P st → P (processReaction figma node st reaction)) →
  ∀ node st, P st → P (walkNode figma node st).
Proof.
  intros Hstep node.
  induction node as [s rs cs IH] using SceneNode_tree_ind.
  intros st Hst. rewrite walkNode_unfold. simpl.
  assert (P (foldl (processReaction figma s) st (default [] rs))) as Hrs.
  { apply foldl_preserves; [apply Hstep | exact Hst]. }
  revert Hrs. generalize (foldl (processReaction figma s) st (default [] rs)).
  unfold walkAll.
  induction IH as [|c l Hc _ IHl]; simpl; intros st' Hst'; [done|].
  apply IHl, Hc, Hst'.
Qed.

Lemma walkAll_preserves figma (P : ScanState → Prop) :
  (∀ node st reaction, P st → P (processReaction figma node st reaction)) →
  ∀ cs st, P st → P (walkAll figma cs st).
Proof.
  intros Hstep cs st Hst. unfold walkAll.
  apply foldl_preserves; [|exact Hst].
  intros st' c Hst'. by apply walkNode_preserves.
Qed.

(** A reaction either leaves the state alone or registers two distinct
    top-level frames and appends one edge between them. *)
Lemma processReaction_cases figma node st reaction :
  processReaction figma node st reaction = st
  ∨ ∃ sf df trig act,
      node_id sf ≠ node_id df
      ∧ processReaction figma node st reaction =
        mkScan (register df (register sf (nodeMap st)))
               (edges st ++ [FlowEdge.mk (node_id sf) (node_id df) trig act])%list.
Proof.
  unfold processReaction.
  destruct (r_action reaction) as [a|]; [|by left].
  destruct (truthy (destinationId a)) as [dest|]; [|by left].
  destruct (findTopFrame node) as [sf|]; [|by left].
  destruct (match getNodeById figma dest with
            | Some destNode => findTopFrame destNode
            | None => None
            end) as [df|]; [|by left].
  case_bool_decide as Hne; [|by left].
  right. by eexists sf, df, _, _.
Qed.


Lemma processReaction_ok figma node st reaction :
  scan_ok st → scan_ok (processReaction figma node st reaction).
Proof.
  intros [Hm He].
  destruct (processReaction_cases figma node st reaction)
    as [->|(sf & df & trig & act & Hne & ->)]; [done|].
  split; simpl.
  - by do 2 apply register_ok.
  - apply Forall_app. split.
    + eapply Forall_impl; [exact He|].
      intros e (? & ? & ?). repeat split; [done|..];
        by do 2 apply register_keys_mono.
    + constructor; [|constructor]. repeat split; simpl; [done|..].
      * apply register_keys_mono, register_registers.
      * apply register_registers.
Qed.

Lemma scan_state_ok figma :
  scan_ok (walkAll figma (page_children (currentPage figma))
             (mkScan JsMap.empty [])).
Proof.
  apply walkAll_preserves.
  - intros. by apply processReaction_ok.
  - split; [split|]; simpl; constructor.
Qed.


Lemma noReactions_unfold s rs cs :
  noReactions (mkScene s rs cs) =
  match rs with
  | Some (_ :: _) => false
  | _ => forallb noReactions (default [] cs)
  end.
Proof.
  simpl. destruct rs as [[|? ?]|]; try reflexivity;
    (destruct cs as [cs|]; simpl; [|reflexivity];
     induction cs as [|c cs IH]; simpl; [reflexivity|by rewrite IH]).
Qed.

Lemma walkNode_noReactions figma node st :
  noReactions node = true → walkNode figma node st = st.
Proof.
  revert st. induction node as [s rs cs IH] using SceneNode_tree_ind.
  intros st. rewrite noReactions_unfold, walkNode_unfold. simpl.
  intros H.
  assert (default [] rs = [] ∧ forallb noReactions (default [] cs) = true)
    as [-> Hcs] by (destruct rs as [[|? ?]|]; done).
  simpl. clear H. revert st. unfold walkAll.
  induction IH as [|c l Hc _ IHl]; simpl in *; intros st; [done|].
  apply andb_true_iff in Hcs as [Hc' Hl].
  rewrite Hc by done. by apply IHl.
Qed.

(** ** Extraction theorems *)

(** C4. Every extracted graph is well formed: node ids are pairwise distinct,
    no edge is a self-loop, and both ends of every edge are ids of nodes of
    the same graph. Parallel edges are kept: some document yields two edges
    with the same source and target. *)
Theorem extraction_well_formed :
  (∀ figma,
     let graph := scanPrototypeConnections figma in
     let ids := FlowNode.id <$> FlowGraph.nodes graph in
     NoDup ids
     ∧ Forall (λ e, FlowEdge.sourceId e ≠ FlowEdge.targetId e
                    ∧ FlowEdge.sourceId e ∈ ids
                    ∧ FlowEdge.targetId e ∈ ids)
              (FlowGraph.edges graph))
  ∧ (∃ figma e,
       FlowGraph.edges (scanPrototypeConnections figma) = [e; e]).
Proof.
  split.
  - intros figma. unfold scanPrototypeConnections. simpl.
    destruct (scan_state_ok figma) as [Hm He].
    rewrite (map_ok_ids _ Hm). split; [apply Hm | exact He].
  - exists Examples.parallel. eexists. vm_compute. reflexivity.
Qed.


Lemma fmap_filter_pre {A B} (f : A → B) (P : A → Prop) (Q : B → Prop)
    `{!∀ x, Decision (P x)} `{!∀ y, Decision (Q y)} (l : list A) :
  (∀ x, P x ↔ Q (f x)) → f <$> filter P l = filter Q (f <$> l).
Proof.
  intros HPQ. induction l as [|x l IH]; [done|].
  rewrite fmap_cons, !filter_cons.
  destruct (decide (P x)) as [HP|HP], (decide (Q (f x))) as [HQ|HQ];
    rewrite ?fmap_cons, IH; try done; exfalso; apply HPQ in HP || apply HPQ in HQ;
    done.
Qed.

Lemma filter_none {A} (P : A → Prop) `{!∀ x, Decision (P x)} (l : list A) :
  Forall (λ x, ¬ P x) l → filter P l = [].
Proof.
  induction 1 as [|x l Hx _ IH]; [done|]. by rewrite filter_cons_False.
Qed.

Lemma declaredStartingPoints_spec page m :
  declaredStartingPoints page m = resolvedMarkers page (JsMap.keys m).
Proof.
  unfold declaredStartingPoints, resolvedMarkers.
  destruct (flowStartingPoints page) as [sps|]; simpl; [|done].
  apply fmap_filter_pre. intros sp. apply has_true.
Qed.

Lemma inferredStartingPoints_spec m es :
  inferredStartingPoints m es = withoutIncoming (JsMap.keys m) es.
Proof.
  unfold inferredStartingPoints, withoutIncoming.
  apply list_filter_iff. intros id. by rewrite elem_of_list_to_set.
Qed.

(** C3. The starting points are the declared markers that resolve to an
    extracted node, in declaration order; when none resolves (in particular
    when none is declared) they are the nodes without an incoming edge, in
    discovery order; so they are empty when no marker resolves and every node
    has an incoming edge. *)
Theorem starting_points_rule (figma : Figma) :
  let graph := scanPrototypeConnections figma in
  let ids := FlowNode.id <$> FlowGraph.nodes graph in
  let declared := resolvedMarkers (currentPage figma) ids in
  FlowGraph.startingPointIds graph =
    (if decide (declared = [])
     then withoutIncoming ids (FlowGraph.edges graph)
     else declared)
  ∧ (declared = [] →
     Forall (λ id, ∃ e, e ∈ FlowGraph.edges graph ∧ FlowEdge.targetId e = id)
            ids →
     FlowGraph.startingPointIds graph = []).
Proof.
  intros graph ids declared.
  assert (FlowGraph.startingPointIds graph =
          if decide (declared = [])
          then withoutIncoming ids (FlowGraph.edges graph) else declared)
    as Heq.
  { subst graph ids declared. unfold scanPrototypeConnections. simpl.
    destruct (scan_state_ok figma) as [Hm _].
    rewrite (map_ok_ids _ Hm), declaredStartingPoints_spec,
      inferredStartingPoints_spec.
    destruct (resolvedMarkers _ _) as [|x l]; simpl; done. }
  split; [exact Heq|].
  intros Hnil Hall. rewrite Heq, decide_True by done.
  unfold withoutIncoming. apply filter_none.
  eapply Forall_impl; [exact Hall|]. simpl.
  intros id (e & He & <-) Hnot. apply Hnot.
  apply list_elem_of_fmap. by exists e.
Qed.

Lemma starting_points_rule_witness :
  FlowGraph.startingPointIds (scanPrototypeConnections Examples.cyclic) = [].
Proof.
  apply (starting_points_rule Examples.cyclic).
  - vm_compute. reflexivity.
  - repeat constructor; simpl.
    + eexists. split; [apply list_elem_of_further, list_elem_of_here|].
      vm_compute. reflexivity.
    + eexists. split; [apply list_elem_of_here|]. vm_compute. reflexivity.
Defined.

(** C1, as stated, fails: a page whose only top-level container carries no
    interaction record yields no node at all, declared marker or not. *)
Lemma isolated_container_counterexample :
  let graph := scanPrototypeConnections Examples.single in
  ¬ (∃ n, FlowGraph.nodes graph = [n]
          ∧ FlowGraph.edges graph = []
          ∧ FlowGraph.startingPointIds graph = [FlowNode.id n]).
Proof. vm_compute. intros (n & Hn & _). discriminate Hn. Qed.

(** C1, amended. For a page whose only top-level container has no
    interaction records anywhere in its subtree, extraction returns the empty
    graph: no nodes, no edges, no starting points. *)
Theorem isolated_container_yields_empty_graph (figma : Figma) (c : SceneNode) :
  page_children (currentPage figma) = [c] →
  noReactions c = true →
  scanPrototypeConnections figma = FlowGraph.mk [] [] [].
Proof.
  intros Hpage Hc. unfold scanPrototypeConnections. rewrite Hpage.
  unfold walkAll. simpl. rewrite walkNode_noReactions by done. simpl.
  rewrite declaredStartingPoints_spec. unfold resolvedMarkers. simpl.
  assert (filter (λ id : string, id ∈ [])
            (sp_nodeId <$> default [] (flowStartingPoints (currentPage figma)))
          = []) as ->.
  { apply filter_none, Forall_forall. intros id _ Hin. by apply elem_of_nil in Hin. }
  reflexivity.
Qed.

Lemma isolated_container_yields_empty_graph_witness :
  scanPrototypeConnections Examples.single = FlowGraph.mk [] [] [].
Proof.
  apply (isolated_container_yields_empty_graph Examples.single
           (mkScene Examples.home (Some []) (Some []))); reflexivity.
Defined.





(* ===================================================================== *)
(** * Properties of the scan request *)
(* ===================================================================== *)








(* ===================================================================== *)
(** * Properties of the layout computation *)
(* ===================================================================== *)

(** C10. Whatever the layout engine answers, the layout nodes carry the ids
    and names of the graph's nodes in the same order, each with the fixed
    card size 324 by 252, and the layout edges carry the source, target,
    trigger and action of the graph's edges in the same order. *)
Theorem computeLayout_frame (dagre : Dagre.Engine) (graph : FlowGraph.t)
    (direction : Direction) :
  let layout := computeLayout dagre graph direction in
  LayoutNode.id <$> LayoutResult.nodes layout
    = FlowNode.id <$> FlowGraph.nodes graph
  ∧ LayoutNode.name <$> LayoutResult.nodes layout
    = FlowNode.name <$> FlowGraph.nodes graph
  ∧ Forall (λ n, LayoutNode.width n = 324 ∧ LayoutNode.height n = 252)
           (LayoutResult.nodes layout)
  ∧ (λ e, (LayoutEdge.sourceId e, LayoutEdge.targetId e,
           LayoutEdge.trigger e, LayoutEdge.action e))
      <$> LayoutResult.edges layout
    = (λ e, (FlowEdge.sourceId e, FlowEdge.targetId e,
             FlowEdge.trigger e, FlowEdge.action e))
      <$> FlowGraph.edges graph.
Proof.
  unfold computeLayout. simpl.
  rewrite <- !list_fmap_compose. repeat split.
  - apply Forall_fmap, Forall_forall. intros n _. simpl. done.
Qed.

Lemma Math_round_lt (q1 q2 : Q) :
  (q1 + 1 <= q2)%Q → Math_round q1 < Math_round q2.
Proof.
  intros Hgap. unfold Math_round. rewrite Zlt_Qlt.
  pose proof (Qfloor_le (q1 + (1 # 2))) as H1.
  pose proof (Qlt_floor (q2 + (1 # 2))) as H2.
  rewrite inject_Z_plus in H2.
  change (inject_Z 1) with 1%Q in H2. Lqa.lra.
Qed.

Lemma dagreInput_edge graph d v w :
  (v, w) ∈ Dagre.setEdge (dagreInput graph d) ↔ transition graph v w.
Proof.
  unfold transition. simpl. rewrite list_elem_of_fmap. split.
  - intros (e & Heq & He). injection Heq as -> ->. by exists e.
  - intros (e & He & <- & <-). by exists e.
Qed.

Lemma tc_mono {A} (R1 R2 : relation A) x y :
  (∀ x y, R1 x y → R2 x y) → tc R1 x y → tc R2 x y.
Proof.
  intros Hsub. induction 1 as [x y Hxy|x y z Hxy _ IH].
  - apply tc_once, Hsub, Hxy.
  - eapply tc_l; [apply Hsub, Hxy | exact IH].
Qed.

Lemma dagreInput_reaches graph d v w :
  Dagre.reaches (dagreInput graph d) v w ↔ tc (transition graph) v w.
Proof.
  unfold Dagre.reaches. split; apply tc_mono; intros x y; apply dagreInput_edge.
Qed.

Lemma get_fmap_label {A} (f : A → string * Dagre.NodeLabel) (l : list A) v lbl :
  JsMap.get v (f <$> l) = Some lbl → ∃ a, a ∈ l ∧ f a = (v, lbl).
Proof.
  induction l as [|a l IH]; simpl; [discriminate|].
  destruct (f a) as [k x] eqn:Hfa. destruct (decide (v = k)) as [->|].
  - intros [= <-]. exists a. split; [apply list_elem_of_here | done].
  - intros H. destruct (IH H) as (a' & Ha' & Hf).
    exists a'. split; [by apply list_elem_of_further | done].
Qed.

Lemma get_is_Some {V} (m : JsMap.t V) k :
  k ∈ JsMap.keys m → is_Some (JsMap.get k m).
Proof.
  induction m as [|[k' v] m IH]; simpl; intros H.
  - by apply elem_of_nil in H.
  - destruct (decide (k = k')); [by eexists|].
    apply IH. apply elem_of_cons in H as [H|H]; [contradiction | done].
Qed.

(** Every node of the graph has a label, and every label is a card. *)
Lemma dagreInput_label graph d (a : FlowNode.t) :
  a ∈ FlowGraph.nodes graph →
  ∃ lbl, Dagre.nodeLabel (dagreInput graph d) (FlowNode.id a) = Some lbl
         ∧ Dagre.width lbl = CARD_W ∧ Dagre.height lbl = CARD_H.
Proof.
  intros Ha. unfold Dagre.nodeLabel. simpl. rewrite <- fmap_reverse.
  destruct (get_is_Some
              ((λ node, (FlowNode.id node,
                         Dagre.mkNodeLabel (FlowNode.name node) CARD_W CARD_H))
                 <$> reverse (FlowGraph.nodes graph)) (FlowNode.id a))
    as [lbl Hlbl].
  { unfold JsMap.keys. rewrite <- list_fmap_compose. apply list_elem_of_fmap.
    exists a. split; [done|]. by apply elem_of_reverse. }
  exists lbl. split; [exact Hlbl|].
  apply get_fmap_label in Hlbl as (n & _ & Heq). by injection Heq as _ <-.
Qed.

Lemma computeLayout_node dagre graph d (l : LayoutNode.t) :
  l ∈ LayoutResult.nodes (computeLayout dagre graph d) →
  let out := dagre (dagreInput graph d) in
  LayoutNode.x l
    = Math_round (Dagre.node_x out (LayoutNode.id l) - inject_Z CARD_W / 2)%Q
  ∧ LayoutNode.y l
    = Math_round (Dagre.node_y out (LayoutNode.id l) - inject_Z CARD_H / 2)%Q.
Proof.
  unfold computeLayout. simpl. intros Hl.
  apply list_elem_of_fmap in Hl as (n & -> & _). simpl. done.
Qed.

(** C9. Let the layout engine keep its contract. If the graph has an edge
    from node [a] to node [b] that lies on no cycle, the left-to-right layout
    puts [a] strictly left of [b] and the top-to-bottom layout puts [a]
    strictly above [b]. *)
Theorem direction_monotonicity (dagre : Dagre.Engine) (graph : FlowGraph.t)
    (a b : FlowNode.t) :
  a ∈ FlowGraph.nodes graph →
  b ∈ FlowGraph.nodes graph →
  transition graph (FlowNode.id a) (FlowNode.id b) →
  ¬ on_cycle graph (FlowNode.id a) (FlowNode.id b) →
  (∀ d, Dagre.ranks_follow_edges dagre (dagreInput graph d)) →
  (∀ la lb,
     la ∈ LayoutResult.nodes (computeLayout dagre graph LR) →
     lb ∈ LayoutResult.nodes (computeLayout dagre graph LR) →
     LayoutNode.id la = FlowNode.id a →
     LayoutNode.id lb = FlowNode.id b →
     LayoutNode.x la < LayoutNode.x lb)
  ∧ (∀ la lb,
       la ∈ LayoutResult.nodes (computeLayout dagre graph TB) →
       lb ∈ LayoutResult.nodes (computeLayout dagre graph TB) →
       LayoutNode.id la = FlowNode.id a →
       LayoutNode.id lb = FlowNode.id b →
       LayoutNode.y la < LayoutNode.y lb).
Proof.
  intros Ha Hb Hedge Hacyclic Hcontract.
  assert (∀ d,
            (Dagre.primary d (dagre (dagreInput graph d)) (FlowNode.id a)
             + inject_Z (match d with
                         | LR => CARD_W + CARD_W
                         | TB => CARD_H + CARD_H
                         end) / 2
             + 120
             <= Dagre.primary d (dagre (dagreInput graph d)) (FlowNode.id b))%Q)
    as Hsep.
  { intros d.
    destruct (dagreInput_label graph d a Ha) as (lv & Hlv & Hwv & Hhv).
    destruct (dagreInput_label graph d b Hb) as (lw & Hlw & Hww & Hhw).
    assert (¬ Dagre.reaches (dagreInput graph d) (FlowNode.id b) (FlowNode.id a))
      as Hnot.
    { intros Hreach. apply Hacyclic. unfold on_cycle.
      by apply (dagreInput_reaches graph d). }
    pose proof (Hcontract d (FlowNode.id a) (FlowNode.id b) lv lw
                  (proj2 (dagreInput_edge graph d _ _) Hedge) Hnot Hlv Hlw) as H.
    destruct d; simpl in H.
    - rewrite Hwv, Hww in H. exact H.
    - rewrite Hhv, Hhw in H. exact H. }
  split; intros la lb Hla Hlb Hida Hidb.
  - destruct (computeLayout_node _ _ _ _ Hla) as [-> _].
    destruct (computeLayout_node _ _ _ _ Hlb) as [-> _].
    rewrite Hida, Hidb. apply Math_round_lt.
    specialize (Hsep LR). simpl in Hsep. unfold CARD_W in *.
    change (inject_Z (324 + 324) / 2)%Q with (648 # 2)%Q in Hsep.
    change (inject_Z 324 / 2)%Q with (324 # 2)%Q. Lqa.lra.
  - destruct (computeLayout_node _ _ _ _ Hla) as [_ ->].
    destruct (computeLayout_node _ _ _ _ Hlb) as [_ ->].
    rewrite Hida, Hidb. apply Math_round_lt.
    specialize (Hsep TB). simpl in Hsep. unfold CARD_H in *.
    change (inject_Z (252 + 252) / 2)%Q with (504 # 2)%Q in Hsep.
    change (inject_Z 252 / 2)%Q with (252 # 2)%Q. Lqa.lra.
Qed.

Lemma twoCards_contract d :
  Dagre.ranks_follow_edges Examples.rowEngine (dagreInput Examples.twoCards d).
Proof.
  intros v w lv lw Hvw _ Hlv Hlw.
  apply list_elem_of_singleton in Hvw. injection Hvw as -> ->.
  vm_compute in Hlv, Hlw. injection Hlv as <-. injection Hlw as <-.
  destruct d; vm_compute; discriminate.
Qed.

Lemma direction_monotonicity_witness :
  LayoutNode.x (LayoutNode.mk "1" "Home" 20 20 324 252)
    < LayoutNode.x (LayoutNode.mk "2" "Details" 464 20 324 252)
  ∧ LayoutNode.y (LayoutNode.mk "1" "Home" 20 20 324 252)
    < LayoutNode.y (LayoutNode.mk "2" "Details" 20 392 324 252).
Proof.
  assert (¬ on_cycle Examples.twoCards "1" "2") as Hacyclic.
  { unfold on_cycle. intros Hcycle.
    assert (∀ w, ¬ transition Examples.twoCards "2" w) as Hstuck.
    { intros w (e & He & Hsrc & _).
      apply list_elem_of_singleton in He. subst e. discriminate Hsrc. }
    inversion Hcycle as [? ? Hstep|? ? ? Hstep _]; exact (Hstuck _ Hstep). }
  destruct (direction_monotonicity Examples.rowEngine Examples.twoCards
              (FlowNode.mk "1" "Home" 375 812)
              (FlowNode.mk "2" "Details" 375 812)) as [HLR HTB].
  - apply list_elem_of_here.
  - apply list_elem_of_further, list_elem_of_here.
  - eexists. split; [apply list_elem_of_here|]. split; reflexivity.
  - exact Hacyclic.
  - apply twoCards_contract.
  - split.
    + apply HLR; [| | reflexivity | reflexivity].
      * apply list_elem_of_here.
      * apply list_elem_of_further, list_elem_of_here.
    + apply HTB; [| | reflexivity | reflexivity].
      * apply list_elem_of_here.
      * apply list_elem_of_further, list_elem_of_here.
Defined.

(* ===================================================================== *)
(** * Properties of the colour assignment *)
(* ===================================================================== *)

(** ** [indexOf] *)

Lemma indexOf_notin s l : s ∉ l → indexOf s l = -1.
Proof.
  induction l as [|y l IH]; simpl; intros H; [done|].
  apply not_elem_of_cons in H as [Hne H].
  destruct (decide (s = y)); [contradiction|]. by rewrite IH.
Qed.

Lemma indexOf_in s l :
  s ∈ l →
  ∃ i : nat, indexOf s l = Z.of_nat i ∧ l !! i = Some s ∧ (i < length l)%nat.
Proof.
  induction l as [|y l IH]; simpl; intros H; [by apply elem_of_nil in H|].
  destruct (decide (s = y)) as [->|Hne].
  - exists 0%nat. repeat split; simpl; lia.
  - apply elem_of_cons in H as [H|H]; [contradiction|].
    destruct (IH H) as (i & -> & Hi & Hlt). exists (S i).
    destruct (Z.ltb_spec (Z.of_nat i) 0); [lia|].
    repeat split; simpl; [lia | done | lia].
Qed.



(** ** [distinct] *)

Lemma distinct_snoc l x :
  distinct (l ++ [x])%list =
  if bool_decide (x ∈ distinct l) then distinct l else (distinct l ++ [x])%list.
Proof. unfold distinct. by rewrite foldl_app. Qed.

Lemma elem_of_distinct l x : x ∈ distinct l ↔ x ∈ l.
Proof.
  induction l as [|y l IH] using rev_ind; [done|].
  rewrite distinct_snoc, elem_of_app, list_elem_of_singleton.
  case_bool_decide as Hy.
  - rewrite IH. split; [by left|]. intros [H| ->]; [done|]. by apply IH.
  - by rewrite elem_of_app, list_elem_of_singleton, IH.
Qed.



(** ** The colour stored for an edge *)

Lemma FLOW_COLORS_length : length FLOW_COLORS = 5%nat.
Proof. reflexivity. Qed.

Lemma colorIndex_at sources s (i : nat) :
  indexOf s sources = Z.of_nat i →
  array_get FLOW_COLORS (colorIndex sources s) = FLOW_COLORS !! (i mod 5)%nat.
Proof.
  intros Hi. unfold colorIndex, array_get. rewrite Hi, FLOW_COLORS_length.
  rewrite Z.rem_mod_nonneg by lia.
  change (Z.of_nat 5) with 5. 
  assert (Z.of_nat i mod 5 = Z.of_nat (i mod 5)) as ->.
  { by rewrite Nat2Z.inj_mod. }
  destruct (Z.ltb_spec (Z.of_nat (i mod 5)) 0); [lia|].
  by rewrite Nat2Z.id.
Qed.

Lemma palette_defined (i : nat) : is_Some (FLOW_COLORS !! (i mod 5)%nat).
Proof.
  apply lookup_lt_is_Some. rewrite FLOW_COLORS_length.
  apply Nat.mod_upper_bound. lia.
Qed.

Section ColorFold.
Variable value : LayoutEdge.t → option RGB.

Lemma foldl_fileEdge_other es (m : gmap string (option RGB)) k :
  Forall (λ e, keyOf e ≠ k) es → foldl (fileEdge value) m es !! k = m !! k.
Proof.
  revert m. induction es as [|e es IH]; simpl; intros m H; [done|].
  apply Forall_cons in H as [Hk H]. rewrite IH by done.
  unfold fileEdge. by rewrite lookup_insert_ne.
Qed.

End ColorFold.

Lemma assignFlowColors_fold layout :
  assignFlowColors layout =
  foldl (fileEdge (λ e,
           array_get FLOW_COLORS
             (colorIndex (distinct (LayoutEdge.sourceId <$> LayoutResult.edges layout))
                         (LayoutEdge.sourceId e))))
        ∅ (LayoutResult.edges layout).
Proof. reflexivity. Qed.








(* ===================================================================== *)
(** * Properties of the arrow geometry *)
(* ===================================================================== *)

Section JsArith.
#[local] Open Scope R_scope.

Lemma sign_zero x : x = 0 → Js.sign x = Eq.
Proof.
  intros ->. unfold Js.sign.
  destruct (total_order_T 0 0) as [[H|H]|H]; [lra | done | lra].
Qed.

Lemma sign_pos x : 0 < x → Js.sign x = Gt.
Proof.
  intros Hx. unfold Js.sign.
  destruct (total_order_T x 0) as [[H|H]|H]; [lra | lra | done].
Qed.

Lemma sqrt_Fin x : 0 <= x → Js.sqrt (Fin x) = Fin (sqrt x).
Proof.
  intros Hx. unfold Js.sqrt, Js.sign.
  destruct (total_order_T x 0) as [[H|H]|H]; [lra | done | done].
Qed.

Lemma div_Fin_pos x y : 0 < y → (Fin x / Fin y)%js = Fin (x / y).
Proof. intros Hy. unfold Js.div. by rewrite sign_pos. Qed.

Lemma div_zero_zero : (Fin 0 / Fin 0)%js = NaN.
Proof. unfold Js.div. by rewrite !sign_zero. Qed.

(** The least of finitely many finite numbers is one of them. *)
Lemma Math_min_Fin x xs :
  ∃ m, Js.Math_min (Fin <$> x :: xs) = Fin m ∧ least m (x :: xs).
Proof.
  revert x. induction xs as [|y ys IH]; intros x.
  - exists x. split; [done|]. split; [apply list_elem_of_here|].
    constructor; [lra | constructor].
  - destruct (IH y) as (m & Hm & Hin & Hle).
    exists (Rmin x m). split.
    + change (Js.Math_min (Fin <$> x :: y :: ys))
        with (Js.min (Fin x) (Js.Math_min (Fin <$> y :: ys))).
      by rewrite Hm.
    + split.
      * apply Rmin_case; [apply list_elem_of_here|].
        by apply list_elem_of_further.
      * constructor; [apply Rmin_l|].
        eapply Forall_impl; [exact Hle|]. simpl. intros z Hz.
        pose proof (Rmin_r x m). lra.
Qed.


End JsArith.

Section ArrowFacts.
#[local] Open Scope R_scope.
Variables x1 y1 x2 y2 : R.
Hypothesis Hdistinct : (x1, y1) ≠ (x2, y2).

Lemma squaredLength_pos : 0 < squaredLength x1 y1 x2 y2.
Proof.
  unfold squaredLength.
  destruct (Req_dec x1 x2) as [Hx|Hx], (Req_dec y1 y2) as [Hy|Hy];
    [exfalso; apply Hdistinct; by subst | nra..].
Qed.

Lemma arrow_len_Fin :
  arrow_len (Fin x1) (Fin y1) (Fin x2) (Fin y2)
  = Fin (sqrt (squaredLength x1 y1 x2 y2)).
Proof.
  unfold arrow_len, arrow_dx, arrow_dy.
  cbn [Js.sub Js.add Js.mul Js.neg].
  rewrite sqrt_Fin; [done|].
  pose proof squaredLength_pos as H. unfold squaredLength in H.
  unfold Rminus in H. lra.
Qed.

Lemma arrow_ux_Fin :
  arrow_ux (Fin x1) (Fin y1) (Fin x2) (Fin y2) = Fin (unitX x1 y1 x2 y2).
Proof.
  unfold arrow_ux. rewrite arrow_len_Fin. unfold arrow_dx.
  cbn [Js.sub Js.add Js.neg].
  rewrite div_Fin_pos; [done|]. apply sqrt_lt_R0, squaredLength_pos.
Qed.

Lemma arrow_uy_Fin :
  arrow_uy (Fin x1) (Fin y1) (Fin x2) (Fin y2) = Fin (unitY x1 y1 x2 y2).
Proof.
  unfold arrow_uy. rewrite arrow_len_Fin. unfold arrow_dy.
  cbn [Js.sub Js.add Js.neg].
  rewrite div_Fin_pos; [done|]. apply sqrt_lt_R0, squaredLength_pos.
Qed.

Lemma allX_Fin :
  allX (Fin x1) (Fin y1) (Fin x2) (Fin y2) = Fin <$> pointsX x1 y1 x2 y2.
Proof.
  unfold allX, arrow_ax1, arrow_ax2, arrow_ex, arrow_sx.
  rewrite arrow_ux_Fin, arrow_uy_Fin. reflexivity.
Qed.

Lemma allY_Fin :
  allY (Fin x1) (Fin y1) (Fin x2) (Fin y2) = Fin <$> pointsY x1 y1 x2 y2.
Proof.
  unfold allY, arrow_ay1, arrow_ay2, arrow_ey, arrow_sy.
  rewrite arrow_ux_Fin, arrow_uy_Fin. reflexivity.
Qed.
End ArrowFacts.

Section ArrowNormalForm.
#[local] Open Scope R_scope.

Lemma createArrow_real x1 y1 x2 y2 mx my color :
  (x1, y1) ≠ (x2, y2) →
  Js.Math_min (Fin <$> pointsX x1 y1 x2 y2) = Fin mx →
  Js.Math_min (Fin <$> pointsY x1 y1 x2 y2) = Fin my →
  createArrow (Fin x1) (Fin y1) (Fin x2) (Fin y2) color
  = realArrow x1 y1 x2 y2 mx my color.
Proof.
  intros Hd Hmx Hmy.
  pose proof (allX_Fin x1 y1 x2 y2 Hd) as HX.
  pose proof (allY_Fin x1 y1 x2 y2 Hd) as HY.
  unfold createArrow, originX, originY. rewrite HX, HY, Hmx, Hmy.
  unfold arrow_ax1, arrow_ax2, arrow_ay1, arrow_ay2,
    arrow_ex, arrow_ey, arrow_sx, arrow_sy.
  rewrite (arrow_ux_Fin x1 y1 x2 y2 Hd), (arrow_uy_Fin x1 y1 x2 y2 Hd).
  reflexivity.
Qed.






End ArrowNormalForm.

Section ArrowMinimum.
#[local] Open Scope R_scope.

Lemma pointsX_min x1 y1 x2 y2 :
  ∃ mx, Js.Math_min (Fin <$> pointsX x1 y1 x2 y2) = Fin mx
        ∧ least mx (pointsX x1 y1 x2 y2).
Proof. unfold pointsX. apply Math_min_Fin. Qed.

Lemma pointsY_min x1 y1 x2 y2 :
  ∃ my, Js.Math_min (Fin <$> pointsY x1 y1 x2 y2) = Fin my
        ∧ least my (pointsY x1 y1 x2 y2).
Proof. unfold pointsY. apply Math_min_Fin. Qed.


End ArrowMinimum.



Section Degenerate.
#[local] Open Scope R_scope.

(** With coinciding anchors the direction vector is [0/0]. *)
Lemma createArrow_degenerate (x1 y1 x2 y2 : R) (color : RGB) :
  x2 = x1 → y2 = y1 →
  createArrow (Fin x1) (Fin y1) (Fin x2) (Fin y2) color = nanArrow color.
Proof.
  intros -> ->.
  assert (arrow_dx (Fin x1) (Fin x1) = Fin 0) as Hdx.
  { unfold arrow_dx. cbn [Js.sub Js.add Js.neg]. f_equal. ring. }
  assert (arrow_dy (Fin y1) (Fin y1) = Fin 0) as Hdy.
  { unfold arrow_dy. cbn [Js.sub Js.add Js.neg]. f_equal. ring. }
  assert (arrow_len (Fin x1) (Fin y1) (Fin x1) (Fin y1) = Fin 0) as Hlen.
  { unfold arrow_len. rewrite Hdx, Hdy. cbn [Js.add Js.mul].
    replace (0 * 0 + 0 * 0) with 0 by ring.
    rewrite sqrt_Fin by lra. by rewrite sqrt_0. }
  assert (arrow_ux (Fin x1) (Fin y1) (Fin x1) (Fin y1) = NaN) as Hux.
  { unfold arrow_ux. rewrite Hdx, Hlen. apply div_zero_zero. }
  assert (arrow_uy (Fin x1) (Fin y1) (Fin x1) (Fin y1) = NaN) as Huy.
  { unfold arrow_uy. rewrite Hdy, Hlen. apply div_zero_zero. }
  unfold createArrow, originX, originY, allX, allY,
    arrow_ax1, arrow_ax2, arrow_ay1, arrow_ay2,
    arrow_ex, arrow_ey, arrow_sx, arrow_sy.
  rewrite Hux, Huy. reflexivity.
Qed.

Lemma nanArrow_undefined color : ¬ well_defined (nanArrow color).
Proof. intros [[x Hx] _]. discriminate Hx. Qed.

Lemma touching_cards :
  cardMap Examples.touching !! "1:2"
    = Some (mkCard (Fin (0 - Rmin 0 324 + 40)) (Fin (0 - Rmin 0 0 + 40))
                   (Fin 324) (Fin 264))
  ∧ cardMap Examples.touching !! "1:3"
    = Some (mkCard (Fin (324 - Rmin 0 324 + 40)) (Fin (0 - Rmin 0 0 + 40))
                   (Fin 324) (Fin 264)).
Proof.
  unfold cardMap. cbn [foldl Examples.touching LayoutResult.nodes LayoutNode.id].
  rewrite lookup_insert_ne, !lookup_insert_eq by done.
  split; reflexivity.
Qed.
End Degenerate.

(** C2. The composer draws the edge of [touching] between two coinciding
    anchors, and [createArrow] has no special case for them: the direction
    vector is [0/0], and the position and every path coordinate of the arrow
    that is appended are NaN. *)
Theorem coincident_anchors_yield_nan_arrow :
  diagramArrows TIERS.free Examples.touching = [nanArrow neutralColor]
  ∧ diagramArrows TIERS.pro Examples.touching = [nanArrow green]
  ∧ ∀ color, ¬ well_defined (nanArrow color).
Proof.
  assert (∀ tier,
            diagramArrows tier Examples.touching
            = [nanArrow (arrowColor tier Examples.touching
                           (LayoutEdge.mk "1:2" "1:3" "ON_CLICK" "NAVIGATE" []))])
    as Harrows.
  { intros tier. unfold diagramArrows.
    cbn [Examples.touching LayoutResult.edges omap list_omap].
    unfold edgeArrow. cbn [LayoutEdge.sourceId LayoutEdge.targetId].
    destruct touching_cards as [-> ->].
    cbn [mbind option_bind card_x card_y card_width card_height].
    rewrite !div_Fin_pos by lra. cbn [Js.add].
    rewrite createArrow_degenerate; [reflexivity | lra | reflexivity]. }
  split; [|split].
  - rewrite Harrows. reflexivity.
  - rewrite Harrows. reflexivity.
  - apply nanArrow_undefined.
Qed.

(* ===================================================================== *)
(** * Further properties of the scanner *)
(* ===================================================================== *)

Lemma findTopFrame_unfold node :
  findTopFrame node =
  if isTopLevel node
  then (if is_frame_like (node_type node) then Some node else None)
  else match parent node with
       | Some p => findTopFrame p
       | None => None
       end.
Proof.
  destruct node as [i n t w h [p|]]; unfold isTopLevel; simpl; [|done].
  by destruct (bool_decide (node_type p = "PAGE")).
Qed.

Lemma ancestry_unfold node :
  ancestry node = node :: match parent node with
                          | Some p => ancestry p
                          | None => []
                          end.
Proof. by destruct node. Qed.

Lemma BaseNode_chain_ind (P : BaseNode → Prop) :
  (∀ node, from_option P True (parent node) → P node) →
  ∀ node, P node.
Proof.
  intros step. fix IH 1. intros [i n t w h [p|]]; apply step; simpl;
    [apply IH | exact I].
Qed.

Lemma findTopFrame_topLevelAncestor node :
  findTopFrame node =
  topLevelAncestor node ≫=
    (λ c, if is_frame_like (node_type c) then Some c else None).
Proof.
  induction node as [node IH] using BaseNode_chain_ind.
  rewrite findTopFrame_unfold. unfold topLevelAncestor.
  rewrite ancestry_unfold, filter_cons.
  destruct (isTopLevel node) eqn:Htop.
  - by rewrite decide_True by done.
  - rewrite decide_False by done.
    destruct (parent node) as [p|] eqn:Hp; [|done].
    exact IH.
Qed.

(** X1. [findTopFrame] returns the nearest of the element and its ancestors
    that is a direct child of a page, provided that one is a frame, a
    component or a component set, and nothing otherwise; a frame it returns
    resolves to itself. *)
Theorem findTopFrame_nearest_top_level (node : BaseNode) :
  findTopFrame node =
    topLevelAncestor node ≫=
      (λ c, if is_frame_like (node_type c) then Some c else None)
  ∧ ∀ frame,
      findTopFrame node = Some frame →
      frame ∈ ancestry node
      ∧ isTopLevel frame = true
      ∧ is_frame_like (node_type frame) = true
      ∧ findTopFrame frame = Some frame.
Proof.
  split; [apply findTopFrame_topLevelAncestor|].
  intros frame. rewrite findTopFrame_topLevelAncestor.
  unfold topLevelAncestor.
  destruct (head _) as [c|] eqn:Hhead; simpl; [|done].
  destruct (is_frame_like (node_type c)) eqn:Hframe; [|done].
  intros [= <-].
  apply head_Some_elem_of, list_elem_of_filter in Hhead as [Htop Hin].
  repeat split; [done..|].
  rewrite findTopFrame_unfold. by rewrite Htop, Hframe.
Qed.

Lemma findTopFrame_nearest_top_level_witness :
  Examples.home ∈ ancestry (mkBase "1:4" "Button" "INSTANCE" 100 44
                              (Some Examples.home))
  ∧ isTopLevel Examples.home = true
  ∧ is_frame_like (node_type Examples.home) = true
  ∧ findTopFrame Examples.home = Some Examples.home.
Proof.
  apply (findTopFrame_nearest_top_level
           (mkBase "1:4" "Button" "INSTANCE" 100 44 (Some Examples.home))).
  reflexivity.
Defined.

Lemma truthy_nonempty o s : truthy o = Some s → s ≠ "".
Proof.
  destruct o as [s'|]; simpl; [|done].
  destruct (decide (s' = "")); [done|]. by intros [= <-].
Qed.

Lemma or_default_nonempty o d : d ≠ "" → or_default o d ≠ "".
Proof.
  intros Hd. unfold or_default.
  destruct (truthy o) as [s|] eqn:Hs; [by eapply truthy_nonempty | done].
Qed.

(** What a reaction that changes the state has found. *)
Lemma processReaction_effect figma node st reaction :
  processReaction figma node st reaction = st
  ∨ ∃ sf df destNode a,
      findTopFrame node = Some sf
      ∧ findTopFrame destNode = Some df
      ∧ node_id sf ≠ node_id df
      ∧ processReaction figma node st reaction =
        mkScan (register df (register sf (nodeMap st)))
               (edges st ++
                [FlowEdge.mk (node_id sf) (node_id df)
                   (or_default (r_trigger reaction ≫= trigger_type) "ON_CLICK")
                   (or_default (action_type a) "NAVIGATE")])%list.
Proof.
  unfold processReaction.
  destruct (r_action reaction) as [a|]; [|by left].
  destruct (truthy (destinationId a)) as [dest|]; [|by left].
  destruct (findTopFrame node) as [sf|] eqn:Hsf; [|by left].
  destruct (getNodeById figma dest) as [destNode|]; [|by left].
  destruct (findTopFrame destNode) as [df|] eqn:Hdf; [|by left].
  case_bool_decide as Hne; [|by left].
  right. by exists sf, df, destNode, a.
Qed.

Lemma register_values frame m :
  JsMap.values (register frame m) = JsMap.values m
  ∨ JsMap.values (register frame m)
    = (JsMap.values m ++ [registered frame])%list.
Proof.
  destruct (register_cases frame m) as [[-> _]|[-> _]]; [by left|].
  right. unfold JsMap.values. by rewrite fmap_app.
Qed.

Lemma register_keys frame m :
  JsMap.keys (register frame m) = JsMap.keys m
  ∨ JsMap.keys (register frame m) = (JsMap.keys m ++ [node_id frame])%list.
Proof.
  destruct (register_cases frame m) as [[-> _]|[-> _]]; [by left|].
  right. unfold JsMap.keys. by rewrite fmap_app.
Qed.

Lemma findTopFrame_screen node frame :
  findTopFrame node = Some frame → is_screen (registered frame).
Proof.
  intros H. rewrite findTopFrame_topLevelAncestor in H.
  unfold topLevelAncestor in H.
  destruct (head _) as [c|] eqn:Hhead; simpl in H; [|done].
  destruct (is_frame_like (node_type c)) eqn:Hframe; [|done].
  injection H as <-.
  apply head_Some_elem_of, list_elem_of_filter in Hhead as [Htop _].
  by exists c.
Qed.

(** X2. Every node of an extracted graph is the record of a frame, component
    or component set that is a direct child of a page, with its dimensions
    rounded; nothing else is ever registered. *)
Theorem extracted_nodes_are_screens (figma : Figma) :
  Forall is_screen (FlowGraph.nodes (scanPrototypeConnections figma)).
Proof.
  unfold scanPrototypeConnections. simpl.
  apply (walkAll_preserves figma
           (λ st, Forall is_screen (JsMap.values (nodeMap st)))).
  - intros node st reaction Hst.
    destruct (processReaction_effect figma node st reaction)
      as [->|(sf & df & destNode & a & Hsf & Hdf & _ & ->)]; [done|].
    simpl.
    assert (Forall is_screen (JsMap.values (register sf (nodeMap st)))) as H1.
    { destruct (register_values sf (nodeMap st)) as [->| ->]; [done|].
      apply Forall_app. split; [done|].
      constructor; [by eapply findTopFrame_screen | constructor]. }
    destruct (register_values df (register sf (nodeMap st))) as [->| ->];
      [done|].
    apply Forall_app. split; [done|].
    constructor; [by eapply findTopFrame_screen | constructor].
  - constructor.
Qed.

(** X3. Every edge of an extracted graph has a non-empty trigger and a
    non-empty action, whatever the interaction records of the document
    hold. *)
Theorem extracted_edges_are_labelled (figma : Figma) :
  Forall (λ e, FlowEdge.trigger e ≠ "" ∧ FlowEdge.action e ≠ "")
         (FlowGraph.edges (scanPrototypeConnections figma)).
Proof.
  unfold scanPrototypeConnections. simpl.
  apply (walkAll_preserves figma
           (λ st, Forall (λ e, FlowEdge.trigger e ≠ "" ∧ FlowEdge.action e ≠ "")
                         (edges st))).
  - intros node st reaction Hst.
    destruct (processReaction_effect figma node st reaction)
      as [->|(sf & df & destNode & a & _ & _ & _ & ->)]; [done|].
    simpl. apply Forall_app. split; [done|].
    constructor; [|constructor]. simpl.
    split; by apply or_default_nonempty.
  - constructor.
Qed.

Lemma touched_app_l es es' id : touched es id → touched (es ++ es') id.
Proof. intros H. apply Exists_app. by left. Qed.

Lemma scan_touched figma :
  let st := walkAll figma (page_children (currentPage figma))
              (mkScan JsMap.empty []) in
  Forall (touched (edges st)) (JsMap.keys (nodeMap st)).
Proof.
  apply (walkAll_preserves figma
           (λ st, Forall (touched (edges st)) (JsMap.keys (nodeMap st)))).
  - intros node st reaction Hst.
    destruct (processReaction_effect figma node st reaction)
      as [->|(sf & df & destNode & a & _ & _ & _ & ->)]; [done|].
    simpl.
    set (e := FlowEdge.mk (node_id sf) (node_id df) _ _).
    assert (Forall (touched (edges st ++ [e])) (JsMap.keys (nodeMap st)))
      as H0.
    { eapply Forall_impl; [exact Hst|]. intros id. apply touched_app_l. }
    assert (touched (edges st ++ [e]) (node_id sf)) as Hs.
    { apply Exists_app. right. constructor. by left. }
    assert (touched (edges st ++ [e]) (node_id df)) as Hd.
    { apply Exists_app. right. constructor. by right. }
    assert (Forall (touched (edges st ++ [e]))
              (JsMap.keys (register sf (nodeMap st)))) as H1.
    { destruct (register_keys sf (nodeMap st)) as [->| ->]; [done|].
      apply Forall_app. split; [done|]. by repeat constructor. }
    destruct (register_keys df (register sf (nodeMap st))) as [->| ->];
      [done|].
    apply Forall_app. split; [done|]. by repeat constructor.
  - constructor.
Qed.

(** X4. An extracted graph has no isolated node: every node is the source or
    the target of some edge. Hence the node list is empty exactly when the
    edge list is, a graph never has exactly one node, and it has at most two
    nodes per edge. *)
Theorem extracted_nodes_are_connected (figma : Figma) :
  let graph := scanPrototypeConnections figma in
  Forall (λ n, touched (FlowGraph.edges graph) (FlowNode.id n))
         (FlowGraph.nodes graph)
  ∧ bool_decide (FlowGraph.nodes graph = [])
    = bool_decide (FlowGraph.edges graph = [])
  ∧ length (FlowGraph.nodes graph) ≠ 1%nat
  ∧ (length (FlowGraph.nodes graph)
     ≤ 2 * length (FlowGraph.edges graph))%nat.
Proof.
  intros graph.
  pose proof (scan_touched figma) as Htouched. cbv zeta in Htouched.
  destruct (scan_state_ok figma) as [Hm He].
  set (st := walkAll figma (page_children (currentPage figma))
               (mkScan JsMap.empty [])) in *.
  assert (FlowNode.id <$> FlowGraph.nodes graph = JsMap.keys (nodeMap st))
    as Hids by (by apply map_ok_ids).
  assert (FlowGraph.edges graph = edges st) as Hedges by done.
  assert (Forall (λ n, touched (FlowGraph.edges graph) (FlowNode.id n))
            (FlowGraph.nodes graph)) as Hconn.
  { rewrite Hedges. pose proof Htouched as Ht. rewrite <- Hids in Ht.
    exact (proj1 (Forall_fmap FlowNode.id _ _) Ht). }
  assert (length (FlowGraph.nodes graph) = length (JsMap.keys (nodeMap st)))
    as Hlen by (by rewrite <- Hids, length_fmap).
  split; [exact Hconn|].
  assert (edges st = [] → JsMap.keys (nodeMap st) = []) as Hnone.
  { intros Hnil. rewrite Hnil in Htouched.
    destruct (JsMap.keys (nodeMap st)) as [|k ks]; [done|].
    apply Forall_cons in Htouched as [Hk _]. by apply Exists_nil in Hk. }
  assert (edges st ≠ [] → (2 ≤ length (JsMap.keys (nodeMap st)))%nat) as Htwo.
  { intros Hsome. destruct (edges st) as [|e es]; [done|].
    apply Forall_cons in He as [(Hne & Hs & Ht) _].
    destruct (JsMap.keys (nodeMap st)) as [|k1 [|k2 ks]]; simpl; [| |lia].
    - by apply elem_of_nil in Hs.
    - apply list_elem_of_singleton in Hs, Ht. congruence. }
  split; [|split].
  - rewrite Hedges. destruct (decide (edges st = [])) as [Hnil|Hsome].
    + rewrite (bool_decide_eq_true_2 (edges st = [])) by done.
      apply bool_decide_eq_true_2.
      apply Hnone in Hnil. destruct (FlowGraph.nodes graph); [done|].
      by rewrite Hnil in Hlen.
    + rewrite (bool_decide_eq_false_2 (edges st = [])) by done.
      apply bool_decide_eq_false_2. intros Hnil.
      apply Htwo in Hsome. rewrite Hnil in Hlen. simpl in Hlen. lia.
  - rewrite Hlen. destruct (decide (edges st = [])) as [Hnil|Hsome].
    + by rewrite (Hnone Hnil).
    + apply Htwo in Hsome. lia.
  - rewrite Hlen, Hedges. clear -st.
    apply (walkAll_preserves figma
             (λ st, (length (JsMap.keys (nodeMap st))
                     ≤ 2 * length (edges st))%nat)); [|simpl; lia].
    intros node st' reaction Hst.
    destruct (processReaction_effect figma node st' reaction)
      as [->|(sf & df & destNode & a & _ & _ & _ & ->)]; [done|].
    simpl. rewrite length_app. simpl.
    assert (length (JsMap.keys (register sf (nodeMap st')))
            ≤ S (length (JsMap.keys (nodeMap st'))))%nat as H1.
    { destruct (register_keys sf (nodeMap st')) as [->| ->]; [lia|].
      rewrite length_app. simpl. lia. }
    destruct (register_keys df (register sf (nodeMap st'))) as [->| ->];
      [lia|]. rewrite length_app. simpl. lia.
Qed.

Lemma startingPointIds_eq figma :
  let graph := scanPrototypeConnections figma in
  let ids := FlowNode.id <$> FlowGraph.nodes graph in
  FlowGraph.startingPointIds graph =
    match resolvedMarkers (currentPage figma) ids with
    | [] => withoutIncoming ids (FlowGraph.edges graph)
    | declared => declared
    end.
Proof.
  unfold scanPrototypeConnections. simpl.
  destruct (scan_state_ok figma) as [Hm _].
  rewrite (map_ok_ids _ Hm), declaredStartingPoints_spec,
    inferredStartingPoints_spec.
  by destruct (resolvedMarkers _ _).
Qed.

Lemma filter_nil_Forall {A} (P : A → Prop) `{!∀ x, Decision (P x)}
    (l : list A) :
  filter P l = [] → Forall (λ x, ¬ P x) l.
Proof.
  induction l as [|x l IH]; [constructor|].
  rewrite filter_cons. destruct (decide (P x)); [done|].
  intros Hnil. constructor; [done | by apply IH].
Qed.

(** X5. Every starting point of an extracted graph is the id of one of its
    nodes. When no declared marker resolves, no id is listed twice; and when
    the list of starting points is empty, every node has an incoming
    edge. *)
Theorem starting_points_are_nodes (figma : Figma) :
  let graph := scanPrototypeConnections figma in
  let ids := FlowNode.id <$> FlowGraph.nodes graph in
  Forall (λ id, id ∈ ids) (FlowGraph.startingPointIds graph)
  ∧ (resolvedMarkers (currentPage figma) ids = [] →
     NoDup (FlowGraph.startingPointIds graph))
  ∧ (FlowGraph.startingPointIds graph = [] →
     Forall (λ id, id ∈ FlowEdge.targetId <$> FlowGraph.edges graph) ids).
Proof.
  intros graph ids. pose proof (startingPointIds_eq figma) as Heq.
  cbv zeta in Heq. fold graph ids in Heq.
  assert (NoDup ids) as Hnd.
  { destruct (scan_state_ok figma) as [Hm _]. subst ids graph.
    unfold scanPrototypeConnections. simpl.
    rewrite (map_ok_ids _ Hm). apply Hm. }
  split; [|split].
  - rewrite Heq. destruct (resolvedMarkers _ _) as [|x l] eqn:Hres.
    + apply Forall_forall. intros id Hid.
      by apply list_elem_of_filter in Hid as [_ Hid].
    + rewrite <- Hres. apply Forall_forall. intros id Hid.
      by apply list_elem_of_filter in Hid as [Hid _].
  - intros Hres. rewrite Heq, Hres. by apply NoDup_filter.
  - intros Hnil. rewrite Heq in Hnil.
    destruct (resolvedMarkers _ _) as [|x l]; [|done].
    apply filter_nil_Forall in Hnil.
    eapply Forall_impl; [exact Hnil|]. simpl. intros id Hid.
    by apply dec_stable.
Qed.

Lemma starting_points_are_nodes_witness :
  NoDup (FlowGraph.startingPointIds (scanPrototypeConnections Examples.parallel))
  ∧ Forall (λ id, id ∈ FlowEdge.targetId
                       <$> FlowGraph.edges
                             (scanPrototypeConnections Examples.cyclic))
           (FlowNode.id
              <$> FlowGraph.nodes (scanPrototypeConnections Examples.cyclic)).
Proof.
  split.
  - apply (starting_points_are_nodes Examples.parallel). reflexivity.
  - apply (starting_points_are_nodes Examples.cyclic). reflexivity.
Defined.

Lemma reactionCount_unfold s rs cs :
  reactionCount (mkScene s rs cs) =
  (length (default [] rs) + sum_list (reactionCount <$> default [] cs))%nat.
Proof.
  simpl. f_equal. destruct cs as [cs|]; simpl; [|done].
  induction cs as [|c cs IH]; simpl; [done|]. by rewrite IH.
Qed.

Lemma processReaction_edges figma node st reaction :
  (length (edges (processReaction figma node st reaction))
   ≤ S (length (edges st)))%nat.
Proof.
  destruct (processReaction_cases figma node st reaction)
    as [->|(sf & df & trig & act & _ & ->)]; [lia|].
  simpl. rewrite length_app. simpl. lia.
Qed.

Lemma walkNode_edges figma node st :
  (length (edges (walkNode figma node st))
   ≤ length (edges st) + reactionCount node)%nat.
Proof.
  revert st. induction node as [s rs cs IH] using SceneNode_tree_ind.
  intros st. rewrite walkNode_unfold, reactionCount_unfold. simpl.
  assert (length (edges (foldl (processReaction figma s) st (default [] rs)))
          ≤ length (edges st) + length (default [] rs))%nat as Hrs.
  { generalize (default [] rs). intros l. revert st.
    induction l as [|r l IHl]; intros st; simpl; [lia|].
    specialize (IHl (processReaction figma s st r)).
    pose proof (processReaction_edges figma s st r). lia. }
  assert (∀ st',
            length (edges (walkAll figma (default [] cs) st'))
            ≤ length (edges st') + sum_list (reactionCount <$> default [] cs))%nat
    as Hcs.
  { unfold walkAll. induction IH as [|c l Hc _ IHl]; simpl; intros st'; [lia|].
    specialize (Hc st'). specialize (IHl (walkNode figma c st')).
    change (list_fmap SceneNode nat reactionCount l)
      with (reactionCount <$> l). lia. }
  specialize (Hcs (foldl (processReaction figma s) st (default [] rs))). lia.
Qed.

(** X6. A reaction contributes at most one edge: an extracted graph has no
    more edges than there are interaction records in the element tree of
    the page. *)
Theorem edges_bounded_by_reactions (figma : Figma) :
  (length (FlowGraph.edges (scanPrototypeConnections figma))
   ≤ sum_list (reactionCount <$> page_children (currentPage figma)))%nat.
Proof.
  unfold scanPrototypeConnections. simpl.
  change (length (edges (walkAll figma (page_children (currentPage figma))
                           (mkScan JsMap.empty [])))
          ≤ length (edges (mkScan JsMap.empty []))
            + sum_list (reactionCount <$> page_children (currentPage figma)))%nat.
  generalize (mkScan JsMap.empty []).
  induction (page_children (currentPage figma)) as [|c cs IH];
    intros st; simpl; [lia|].
  unfold walkAll in *. simpl.
  specialize (IH (walkNode figma c st)).
  pose proof (walkNode_edges figma c st).
  change (list_fmap SceneNode nat reactionCount cs)
    with (reactionCount <$> cs). lia.
Qed.

(* ===================================================================== *)
(** * Properties of the export request *)
(* ===================================================================== *)

(** The request ends in a single error message. *)
Ltac export_single_error :=
  split; [reflexivity|]; split; [simpl; lia|];
  let H := fresh "H" in
  intros ? ? H; apply list_elem_of_singleton in H; discriminate H.

Section ExportFacts.
Import Exporter.
Variable base64Encode : list Byte.byte → string.

(** X7. Under a tier without PDF export, a PDF request never reaches
    [exportAsync]: whatever the state of the diagram page, the request is
    answered by one error message and nothing else. *)
Theorem pdf_export_is_gated (diagramPage : option (list Child))
    (tier : TierConfig.t) :
  TierConfig.pdfExport tier = false →
  ∃ message,
    exportDiagram base64Encode diagramPage tier pdf
    = [PostMessage (Error message)].
Proof.
  intros Hgate. unfold exportDiagram.
  destruct diagramPage as [children|]; [|by eexists].
  destruct (head _ ≫= child_exportAsync) as [exportAsync|]; [|by eexists].
  rewrite Hgate. simpl. by eexists.
Qed.

(** X8. Every export request is answered by exactly one message to the UI
    and calls [exportAsync] at most once. An export-complete message is sent
    only when the diagram frame was found and its export resolved; it then
    carries the requested format and the encoded bytes, and for a PDF the
    tier allows PDF export. *)
Theorem export_reply_discipline (diagramPage : option (list Child))
    (tier : TierConfig.t) (format : Format) :
  let effects := exportDiagram base64Encode diagramPage tier format in
  length (filter (λ e, isPost e = true) effects) = 1%nat
  ∧ (length (filter (λ e, isExportCall e = true) effects) ≤ 1)%nat
  ∧ ∀ data format',
      PostMessage (ExportComplete data format') ∈ effects →
      format' = format
      ∧ (isPdf format = true → TierConfig.pdfExport tier = true)
      ∧ ∃ children frame exportAsync bytes,
          diagramPage = Some children
          ∧ head (filter (λ n, child_name n = "Flow Diagram") children)
            = Some frame
          ∧ child_exportAsync frame = Some exportAsync
          ∧ exportAsync (settingsFor format) = Resolves bytes
          ∧ data = base64Encode bytes.
Proof.
  unfold exportDiagram.
  destruct diagramPage as [children|]; simpl; [|export_single_error].
  destruct (head _) as [frame|] eqn:Hframe; simpl; [|export_single_error].
  destruct (child_exportAsync frame) as [exportAsync|] eqn:Hexp;
    [|export_single_error].
  destruct (isPdf format && negb (TierConfig.pdfExport tier)) eqn:Hgate;
    [export_single_error|].
  destruct (exportAsync (settingsFor format)) as [bytes|message] eqn:Hout.
  - split; [reflexivity|]. split; [simpl; lia|]. intros data f H.
    repeat (apply elem_of_cons in H as [H|H]; [try discriminate H|]);
      [|by apply elem_of_nil in H].
    injection H as -> ->. split; [done|]. split.
    + intros Hpdf. rewrite Hpdf in Hgate.
      by destruct (TierConfig.pdfExport tier).
    + by exists children, frame, exportAsync, bytes.
  - split; [reflexivity|]. split; [simpl; lia|]. intros data f H.
    repeat (apply elem_of_cons in H as [H|H]; [discriminate H|]).
    by apply elem_of_nil in H.
Qed.

End ExportFacts.

Lemma pdf_export_is_gated_witness :
  ∃ message,
    Exporter.exportDiagram ExporterExamples.encode
      (Some ExporterExamples.page) TIERS.free Exporter.pdf
    = [Exporter.PostMessage (Exporter.Error message)].
Proof.
  apply (pdf_export_is_gated ExporterExamples.encode
           (Some ExporterExamples.page) TIERS.free).
  reflexivity.
Defined.

Lemma export_reply_discipline_witness :
  Exporter.pdf = Exporter.pdf
  ∧ (Exporter.isPdf Exporter.pdf = true → TierConfig.pdfExport TIERS.pro = true)
  ∧ ∃ children frame exportAsync bytes,
      Some ExporterExamples.page = Some children
      ∧ head (filter (λ n, Exporter.child_name n = "Flow Diagram") children)
        = Some frame
      ∧ Exporter.child_exportAsync frame = Some exportAsync
      ∧ exportAsync (Exporter.settingsFor Exporter.pdf) = Exporter.Resolves bytes
      ∧ "3" = ExporterExamples.encode bytes.
Proof.
  destruct (export_reply_discipline ExporterExamples.encode
              (Some ExporterExamples.page) TIERS.pro Exporter.pdf)
    as (_ & _ & Hcomplete).
  apply (Hcomplete "3" Exporter.pdf).
  apply list_elem_of_further, list_elem_of_here.
Defined.

(* ===================================================================== *)
(** * Properties of the container, the cards and the arrows *)
(* ===================================================================== *)

Section BoundingBox.
#[local] Open Scope R_scope.
Context {A : Type}.
Variable f : A → R.

Lemma foldl_min_Fin (l : list A) (a : R) :
  ∃ m, foldl (λ acc n, Js.min acc (Fin (f n))) (Fin a) l = Fin m
       ∧ least m (a :: (f <$> l)).
Proof.
  revert a. induction l as [|n l IH]; intros a; simpl.
  - exists a. split; [done|]. split; [apply list_elem_of_here|].
    constructor; [lra | constructor].
  - destruct (IH (Rmin a (f n))) as (m & -> & Hin & Hle).
    exists m. split; [done|].
    apply Forall_cons in Hle as [Hm Hle]. split.
    + apply elem_of_cons in Hin as [->|Hin].
      * apply Rmin_case; [apply list_elem_of_here|].
        apply list_elem_of_further, list_elem_of_here.
      * by do 2 apply list_elem_of_further.
    + pose proof (Rmin_l a (f n)). pose proof (Rmin_r a (f n)).
      constructor; [lra|]. constructor; [lra | done].
Qed.

Lemma foldl_max_Fin (l : list A) (a : R) :
  ∃ m, foldl (λ acc n, Js_max acc (Fin (f n))) (Fin a) l = Fin m
       ∧ greatest m (a :: (f <$> l)).
Proof.
  revert a. induction l as [|n l IH]; intros a; simpl.
  - exists a. split; [done|]. split; [apply list_elem_of_here|].
    constructor; [lra | constructor].
  - destruct (IH (Rmax a (f n))) as (m & -> & Hin & Hle).
    exists m. split; [done|].
    apply Forall_cons in Hle as [Hm Hle]. split.
    + apply elem_of_cons in Hin as [->|Hin].
      * apply Rmax_case; [apply list_elem_of_here|].
        apply list_elem_of_further, list_elem_of_here.
      * by do 2 apply list_elem_of_further.
    + pose proof (Rmax_l a (f n)). pose proof (Rmax_r a (f n)).
      constructor; [lra|]. constructor; [lra | done].
Qed.
End BoundingBox.

Section BoundingBoxOfLayout.
#[local] Open Scope R_scope.
Variable layout : LayoutResult.t.
Hypothesis Hnodes : LayoutResult.nodes layout ≠ [].

Lemma minX_Fin :
  ∃ m, minX layout = Fin m
       ∧ least m ((λ n, IZR (LayoutNode.x n)) <$> LayoutResult.nodes layout).
Proof.
  unfold minX. destruct (LayoutResult.nodes layout) as [|n l]; [done|].
  apply (foldl_min_Fin (λ n, IZR (LayoutNode.x n))).
Qed.

Lemma minY_Fin :
  ∃ m, minY layout = Fin m
       ∧ least m ((λ n, IZR (LayoutNode.y n)) <$> LayoutResult.nodes layout).
Proof.
  unfold minY. destruct (LayoutResult.nodes layout) as [|n l]; [done|].
  apply (foldl_min_Fin (λ n, IZR (LayoutNode.y n))).
Qed.

Lemma maxX_Fin :
  ∃ m, maxX layout = Fin m
       ∧ greatest m ((λ n, IZR (LayoutNode.x n) + 300 + 12 * 2)
                       <$> LayoutResult.nodes layout).
Proof.
  unfold maxX. destruct (LayoutResult.nodes layout) as [|n l]; [done|].
  apply (foldl_max_Fin (λ n, IZR (LayoutNode.x n) + 300 + 12 * 2)).
Qed.

Lemma maxY_Fin :
  ∃ m, maxY layout = Fin m
       ∧ greatest m ((λ n, IZR (LayoutNode.y n) + 200 + 12 * 2 + 40)
                       <$> LayoutResult.nodes layout).
Proof.
  unfold maxY. destruct (LayoutResult.nodes layout) as [|n l]; [done|].
  apply (foldl_max_Fin (λ n, IZR (LayoutNode.y n) + 200 + 12 * 2 + 40)).
Qed.
End BoundingBoxOfLayout.

(** X9. The container encloses every card with the outer padding of 40 on
    all sides: for a layout with at least one node, both container sizes are
    finite, every card is 324 by 264 and lies between 40 and the container
    size minus 40 on each axis, and some card touches the left, the top, the
    right and the bottom padding. For a layout without nodes both sizes
    passed to [resize] are -Infinity. *)
Theorem cards_fit_in_container (layout : LayoutResult.t) :
  (LayoutResult.nodes layout = [] →
   containerWidth layout = NInf ∧ containerHeight layout = NInf)
  ∧ (LayoutResult.nodes layout ≠ [] →
     ∃ w h : R,
       containerWidth layout = Fin w
       ∧ containerHeight layout = Fin h
       ∧ Forall (λ c, ∃ cx cy : R,
                   c = mkCard (Fin cx) (Fin cy) (Fin 324) (Fin 264)
                   ∧ (40 <= cx ∧ cx + 324 <= w - 40)%R
                   ∧ (40 <= cy ∧ cy + 264 <= h - 40)%R)
                (cards layout)
       ∧ Exists (λ c, card_x c = Fin 40) (cards layout)
       ∧ Exists (λ c, card_y c = Fin 40) (cards layout)
       ∧ Exists (λ c, (card_x c + card_width c)%js = Fin (w - 40)) (cards layout)
       ∧ Exists (λ c, (card_y c + card_height c)%js = Fin (h - 40))
                (cards layout)).
Proof.
  split.
  - intros Hnil. unfold containerWidth, containerHeight, maxX, maxY, minX, minY.
    rewrite Hnil. done.
  - intros Hnodes.
    destruct (minX_Fin layout Hnodes) as (mx & Hmx & Hmxin & Hmxle).
    destruct (minY_Fin layout Hnodes) as (my & Hmy & Hmyin & Hmyle).
    destruct (maxX_Fin layout Hnodes) as (Mx & HMx & HMxin & HMxle).
    destruct (maxY_Fin layout Hnodes) as (My & HMy & HMyin & HMyle).
    exists (Mx - mx + 40 * 2)%R, (My - my + 40 * 2)%R.
    unfold containerWidth, containerHeight, cards, makeCard.
    rewrite Hmx, Hmy, HMx, HMy. unfold Js.of_Z, PADDING.
    change (IZR (THUMB_W + CARD_PADDING * 2)) with 324%R.
    change (IZR (THUMB_H + CARD_PADDING * 2 + 40)) with 264%R.
    rewrite Forall_fmap, !Exists_fmap. rewrite Forall_fmap in Hmxle, Hmyle, HMxle, HMyle.
    rewrite Forall_forall in Hmxle, Hmyle, HMxle, HMyle.
    split; [done|]. split; [done|]. split; [|split; [|split; [|split]]].
    + apply Forall_forall. intros n Hn. simpl.
      exists (IZR (LayoutNode.x n) - mx + 40)%R,
             (IZR (LayoutNode.y n) - my + 40)%R.
      split; [done|].
      specialize (Hmxle n Hn). specialize (Hmyle n Hn).
      specialize (HMxle n Hn). specialize (HMyle n Hn). simpl in *.
      split; split; lra.
    + apply list_elem_of_fmap in Hmxin as (n & -> & Hn).
      apply Exists_exists. exists n. split; [done|]. simpl.
      f_equal. lra.
    + apply list_elem_of_fmap in Hmyin as (n & -> & Hn).
      apply Exists_exists. exists n. split; [done|]. simpl.
      f_equal. lra.
    + apply list_elem_of_fmap in HMxin as (n & -> & Hn).
      apply Exists_exists. exists n. split; [done|]. simpl.
      f_equal. lra.
    + apply list_elem_of_fmap in HMyin as (n & -> & Hn).
      apply Exists_exists. exists n. split; [done|]. simpl.
      f_equal. lra.
Qed.

Lemma cards_fit_in_container_witness :
  (containerWidth Examples.collide = NInf
   ∧ containerHeight Examples.collide = NInf)
  ∧ ∃ w h : R,
      containerWidth Examples.touching = Fin w
      ∧ containerHeight Examples.touching = Fin h.
Proof.
  split.
  - apply (cards_fit_in_container Examples.collide). reflexivity.
  - destruct (proj2 (cards_fit_in_container Examples.touching))
      as (w & h & Hw & Hh & _); [discriminate|].
    by exists w, h.
Defined.

Section CardMap.
Context {V : Type}.
Variable g : LayoutNode.t → V.

Lemma foldl_insert_lookup (l : list LayoutNode.t) (m : gmap string V) k c :
  foldl (λ (m : gmap string V) n, <[LayoutNode.id n := g n]> m) m l !! k
  = Some c →
  (∃ n, n ∈ l ∧ LayoutNode.id n = k ∧ c = g n) ∨ m !! k = Some c.
Proof.
  revert m. induction l as [|n l IH]; simpl; intros m H; [by right|].
  destruct (IH _ H) as [(n' & Hn' & Hk & Hc)|Hm].
  - left. exists n'. split; [by apply list_elem_of_further | done].
  - destruct (decide (LayoutNode.id n = k)) as [Heq|Hne].
    + rewrite Heq, lookup_insert_eq in Hm. injection Hm as <-.
      left. exists n. split; [apply list_elem_of_here | done].
    + rewrite lookup_insert_ne in Hm by done. by right.
Qed.

Lemma foldl_insert_is_Some (l : list LayoutNode.t) (m : gmap string V) k :
  k ∈ LayoutNode.id <$> l ∨ is_Some (m !! k) →
  is_Some (foldl (λ (m : gmap string V) n, <[LayoutNode.id n := g n]> m) m l
           !! k).
Proof.
  revert m. induction l as [|n l IH]; simpl; intros m H.
  - destruct H as [H|H]; [by apply elem_of_nil in H | done].
  - apply IH. destruct H as [H|H].
    + apply elem_of_cons in H as [->|H]; [|by left].
      right. rewrite lookup_insert_eq. by eexists.
    + right. destruct (decide (LayoutNode.id n = k)) as [->|Hne].
      * rewrite lookup_insert_eq. by eexists.
      * by rewrite lookup_insert_ne.
Qed.
End CardMap.

Lemma cardMap_Some layout k c :
  cardMap layout !! k = Some c →
  ∃ n, n ∈ LayoutResult.nodes layout ∧ LayoutNode.id n = k
       ∧ c = makeCard layout n.
Proof.
  unfold cardMap. intros H.
  by destruct (foldl_insert_lookup _ _ _ _ _ H) as [Hn|Hempty].
Qed.

Lemma cardMap_is_Some layout k :
  is_Some (cardMap layout !! k)
  ↔ k ∈ LayoutNode.id <$> LayoutResult.nodes layout.
Proof.
  split.
  - intros [c Hc]. apply cardMap_Some in Hc as (n & Hn & <- & _).
    apply list_elem_of_fmap. by exists n.
  - intros Hk. unfold cardMap. apply foldl_insert_is_Some. by left.
Qed.

Lemma edgeArrow_is_Some tier layout e :
  is_Some (edgeArrow tier layout e) ↔ hasCards layout e.
Proof.
  unfold edgeArrow, hasCards. rewrite <- !cardMap_is_Some.
  destruct (cardMap layout !! LayoutEdge.sourceId e) as [sc|]; simpl.
  - destruct (cardMap layout !! LayoutEdge.targetId e) as [tc|]; simpl.
    + split; [by intros _; split; eexists | by intros _; eexists].
    + split; [by intros [? ?] | by intros [_ [? ?]]].
  - split; [by intros [? ?] | by intros [[? ?] _]].
Qed.

Lemma length_omap_filter {A B} (f : A → option B) (l : list A) :
  length (omap f l) = length (filter (λ x, is_Some (f x)) l).
Proof.
  induction l as [|x l IH]; [done|]. rewrite filter_cons.
  cbn [omap list_omap]. destruct (f x) as [y|] eqn:Hfx.
  - rewrite decide_True by (by eexists). cbn [length]. by f_equal.
  - rewrite decide_False by (by intros [? ?]). exact IH.
Qed.

(** X10. The composer draws an arrow for an edge exactly when both its ends
    are ids of layout nodes; edges that name a node without a card are
    skipped, all others are drawn (parallel edges included), under every
    tier. *)
Theorem arrows_need_both_cards (tier : TierConfig.t)
    (layout : LayoutResult.t) :
  let ids := LayoutNode.id <$> LayoutResult.nodes layout in
  (∀ e, is_Some (edgeArrow tier layout e)
        ↔ LayoutEdge.sourceId e ∈ ids ∧ LayoutEdge.targetId e ∈ ids)
  ∧ length (diagramArrows tier layout)
    = length (filter (λ e, LayoutEdge.sourceId e ∈ ids
                           ∧ LayoutEdge.targetId e ∈ ids)
                     (LayoutResult.edges layout)).
Proof.
  intros ids. split; [intros e; apply edgeArrow_is_Some|].
  unfold diagramArrows. rewrite length_omap_filter. f_equal.
  apply list_filter_iff. intros e. apply edgeArrow_is_Some.
Qed.

Lemma foldl_fileEdge_lookup value es (m : gmap string (option RGB)) k v :
  foldl (fileEdge value) m es !! k = Some v →
  (∃ e, e ∈ es ∧ keyOf e = k ∧ v = value e) ∨ m !! k = Some v.
Proof.
  revert m. induction es as [|e es IH]; simpl; intros m H; [by right|].
  destruct (IH _ H) as [(e' & He' & Hk & Hv)|Hm].
  - left. exists e'. split; [by apply list_elem_of_further | done].
  - unfold fileEdge in Hm. destruct (decide (keyOf e = k)) as [Heq|Hne].
    + rewrite Heq, lookup_insert_eq in Hm. injection Hm as <-.
      left. exists e. split; [apply list_elem_of_here | done].
    + rewrite lookup_insert_ne in Hm by done. by right.
Qed.

Lemma foldl_fileEdge_is_Some value es (m : gmap string (option RGB)) e :
  e ∈ es → is_Some (foldl (fileEdge value) m es !! keyOf e).
Proof.
  revert e m. induction es as [|e0 es IH]; simpl; intros e m He;
    [by apply elem_of_nil in He|].
  apply elem_of_cons in He as [->|He]; [|by apply IH].
  destruct (decide (Exists (λ e', keyOf e' = keyOf e0) es)) as [Hex|Hno].
  - apply Exists_exists in Hex as (e' & He' & <-). by apply IH.
  - apply not_Exists_Forall in Hno; [|intros ?; apply _].
    rewrite foldl_fileEdge_other by done.
    unfold fileEdge. rewrite lookup_insert_eq. by eexists.
Qed.

(** The colour computed for an edge of the layout is a palette entry. *)
Lemma edge_value_defined layout e :
  e ∈ LayoutResult.edges layout →
  ∃ (i : nat) (c : RGB),
    distinct (LayoutEdge.sourceId <$> LayoutResult.edges layout) !! i
      = Some (LayoutEdge.sourceId e)
    ∧ FLOW_COLORS !! (i mod 5)%nat = Some c
    ∧ array_get FLOW_COLORS
        (colorIndex (distinct (LayoutEdge.sourceId <$> LayoutResult.edges layout))
                    (LayoutEdge.sourceId e))
      = Some c.
Proof.
  intros He.
  destruct (indexOf_in (LayoutEdge.sourceId e)
              (distinct (LayoutEdge.sourceId <$> LayoutResult.edges layout)))
    as (i & Hidx & Hi & _).
  { apply elem_of_distinct, list_elem_of_fmap. by exists e. }
  destruct (palette_defined i) as [c Hc].
  exists i, c. split; [done|]. split; [done|].
  by rewrite (colorIndex_at _ _ i).
Qed.

Lemma assignFlowColors_entries layout k v :
  assignFlowColors layout !! k = Some v →
  ∃ e c, e ∈ LayoutResult.edges layout ∧ keyOf e = k
         ∧ v = Some c ∧ c ∈ FLOW_COLORS.
Proof.
  rewrite assignFlowColors_fold. intros Hkv.
  apply foldl_fileEdge_lookup in Hkv as [(e & He & Hk & ->)|Hempty];
    [|by rewrite lookup_empty in Hempty].
  destruct (edge_value_defined layout e He) as (i & c & _ & Hc & ->).
  exists e, c. repeat split; [done..|].
  by eapply list_elem_of_lookup_2.
Qed.

(** X11. The colour map has an entry for the key of every edge, and every
    entry is a colour of the palette: the palette is never indexed out of
    range, so no entry is undefined. *)
Theorem flow_colors_are_palette_colors (layout : LayoutResult.t) :
  Forall (λ e, is_Some (assignFlowColors layout !! keyOf e))
         (LayoutResult.edges layout)
  ∧ ∀ k v,
      assignFlowColors layout !! k = Some v →
      ∃ e c, e ∈ LayoutResult.edges layout ∧ keyOf e = k
             ∧ v = Some c ∧ c ∈ FLOW_COLORS.
Proof.
  split; [|apply assignFlowColors_entries].
  rewrite assignFlowColors_fold.
  apply Forall_forall. intros e He. by apply foldl_fileEdge_is_Some.
Qed.

Lemma flow_colors_are_palette_colors_witness :
  ∃ e c, e ∈ LayoutResult.edges Examples.collide ∧ keyOf e = "a-b-c"
         ∧ Some (mkRGB (91 # 100) (3 # 10) (24 # 100)) = Some c
         ∧ c ∈ FLOW_COLORS.
Proof.
  apply (flow_colors_are_palette_colors Examples.collide). reflexivity.
Defined.

Lemma edgeColor_in_palette layout e :
  edgeColor (assignFlowColors layout) e ∈ FLOW_COLORS.
Proof.
  unfold edgeColor.
  destruct (assignFlowColors layout !! _) as [[c|]|] eqn:Hget; simpl;
    try apply list_elem_of_here.
  destruct (assignFlowColors_entries layout _ _ Hget)
    as (e' & c' & _ & _ & [= <-] & Hc). exact Hc.
Qed.


Lemma neutralColor_not_in_palette : neutralColor ∉ FLOW_COLORS.
Proof.
  intros H. unfold FLOW_COLORS in H.
  repeat (apply elem_of_cons in H as [H|H]; [discriminate H|]).
  by apply elem_of_nil in H.
Qed.

(** X12. The stroke of an arrow is decided by the tier alone when
    highlighting is off, and by the colour map when it is on: without flow
    highlighting every arrow has the one neutral colour; with it, an arrow
    has the colour read for its edge, which is a palette colour and never
    the neutral one. *)
Theorem arrow_stroke_by_tier (tier : TierConfig.t) (layout : LayoutResult.t)
    (e : LayoutEdge.t) (v : VectorNode) :
  edgeArrow tier layout e = Some v →
  (TierConfig.flowHighlighting tier = false → strokes v = [neutralColor])
  ∧ (TierConfig.flowHighlighting tier = true →
     strokes v = [edgeColor (assignFlowColors layout) e]
     ∧ edgeColor (assignFlowColors layout) e ∈ FLOW_COLORS
     ∧ strokes v ≠ [neutralColor]).
Proof.
  unfold edgeArrow. intros H.
  destruct (cardMap layout !! LayoutEdge.sourceId e) as [sc|]; [|done].
  destruct (cardMap layout !! LayoutEdge.targetId e) as [tc|]; [|done].
  simpl in H. injection H as <-. unfold arrowColor. split.
  - intros ->. reflexivity.
  - intros ->. split; [reflexivity|].
    pose proof (edgeColor_in_palette layout e) as Hin.
    split; [exact Hin|]. simpl. intros [= Heq].
    rewrite Heq in Hin. by apply neutralColor_not_in_palette.
Qed.

Lemma touching_arrow tier :
  edgeArrow tier Examples.touching
    (LayoutEdge.mk "1:2" "1:3" "ON_CLICK" "NAVIGATE" [])
  = Some (nanArrow (arrowColor tier Examples.touching
                      (LayoutEdge.mk "1:2" "1:3" "ON_CLICK" "NAVIGATE" []))).
Proof.
  unfold edgeArrow. cbn [LayoutEdge.sourceId LayoutEdge.targetId].
  destruct touching_cards as [-> ->].
  cbn [mbind option_bind card_x card_y card_width card_height].
  rewrite !div_Fin_pos by lra. cbn [Js.add].
  rewrite createArrow_degenerate; [reflexivity | lra | reflexivity].
Qed.

Lemma arrow_stroke_by_tier_witness :
  strokes (nanArrow neutralColor) = [neutralColor]
  ∧ strokes (nanArrow green) ≠ [neutralColor].
Proof.
  split.
  - apply (arrow_stroke_by_tier TIERS.free Examples.touching
             (LayoutEdge.mk "1:2" "1:3" "ON_CLICK" "NAVIGATE" [])
             (nanArrow neutralColor)); [|reflexivity].
    apply (touching_arrow TIERS.free).
  - apply (arrow_stroke_by_tier TIERS.pro Examples.touching
             (LayoutEdge.mk "1:2" "1:3" "ON_CLICK" "NAVIGATE" [])
             (nanArrow green)); [|reflexivity].
    apply (touching_arrow TIERS.pro).
Defined.




(* ===================================================================== *)
(** * Further properties of the arrow geometry *)
(* ===================================================================== *)

Section ArrowShape.
#[local] Open Scope R_scope.
Variables x1 y1 x2 y2 : R.
Hypothesis Hdistinct : (x1, y1) ≠ (x2, y2).




End ArrowShape.





(* ===================================================================== *)
(** * Further properties of the layout computation *)
(* ===================================================================== *)

Lemma Qfloor_unique (q : Q) (z : Z) :
  (inject_Z z <= q)%Q → (q < inject_Z (z + 1))%Q → Qfloor q = z.
Proof.
  intros Hle Hlt.
  pose proof (Qfloor_le q) as H1. pose proof (Qlt_floor q) as H2.
  assert (Qfloor q < z + 1) as Hup.
  { rewrite Zlt_Qlt. eapply Qle_lt_trans; [exact H1 | exact Hlt]. }
  assert (z < Qfloor q + 1) as Hlow.
  { rewrite Zlt_Qlt. eapply Qle_lt_trans; [exact Hle | exact H2]. }
  lia.
Qed.

(** Rounding commutes with a shift by an integer. *)
Lemma Math_round_shift (q : Q) (k : Z) :
  Math_round (q - inject_Z k)%Q = Math_round q - k.
Proof.
  unfold Math_round. apply Qfloor_unique.
  - pose proof (Qfloor_le (q + (1 # 2))) as H.
    unfold Z.sub. rewrite inject_Z_plus, inject_Z_opp. Lqa.lra.
  - pose proof (Qlt_floor (q + (1 # 2))) as H.
    replace (Qfloor (q + (1 # 2)) - k + 1) with (Qfloor (q + (1 # 2)) + 1 - k)
      by lia.
    unfold Z.sub. rewrite inject_Z_plus, inject_Z_opp. Lqa.lra.
Qed.

Lemma computeLayout_node_shift dagre graph d (l : LayoutNode.t) :
  l ∈ LayoutResult.nodes (computeLayout dagre graph d) →
  let out := dagre (dagreInput graph d) in
  LayoutNode.x l = Math_round (Dagre.node_x out (LayoutNode.id l)) - 162
  ∧ LayoutNode.y l = Math_round (Dagre.node_y out (LayoutNode.id l)) - 126.
Proof.
  intros Hl out. destruct (computeLayout_node _ _ _ _ Hl) as [-> ->].
  fold out. rewrite <- !Math_round_shift. split.
  - apply Qfloor_comp. apply Qplus_comp; [|reflexivity].
    apply Qplus_comp; [reflexivity|]. reflexivity.
  - apply Qfloor_comp. apply Qplus_comp; [|reflexivity].
    apply Qplus_comp; [reflexivity|]. reflexivity.
Qed.

(** X16. In every computed layout, the corner of a card is the rounded
    anchor of the engine moved by half the card (162 and 126), so nodes with
    the same id get the same position; parallel edges get the same route;
    and a route has as many points as the engine returned for that pair of
    nodes, none when the pair is not routed. *)
Theorem computeLayout_positions_and_routes (dagre : Dagre.Engine)
    (graph : FlowGraph.t) (direction : Direction) :
  let layout := computeLayout dagre graph direction in
  let out := dagre (dagreInput graph direction) in
  Forall (λ n,
            LayoutNode.x n
              = Math_round (Dagre.node_x out (LayoutNode.id n)) - 162
            ∧ LayoutNode.y n
              = Math_round (Dagre.node_y out (LayoutNode.id n)) - 126)
         (LayoutResult.nodes layout)
  ∧ Forall (λ e,
              length (LayoutEdge.points e)
              = length (default []
                          (Dagre.edge_points out (LayoutEdge.sourceId e)
                             (LayoutEdge.targetId e))))
           (LayoutResult.edges layout)
  ∧ ∀ e1 e2,
      e1 ∈ LayoutResult.edges layout → e2 ∈ LayoutResult.edges layout →
      LayoutEdge.sourceId e1 = LayoutEdge.sourceId e2 →
      LayoutEdge.targetId e1 = LayoutEdge.targetId e2 →
      LayoutEdge.points e1 = LayoutEdge.points e2.
Proof.
  intros layout out. split; [|split].
  - apply Forall_forall. intros n Hn.
    by apply computeLayout_node_shift.
  - subst layout. unfold computeLayout. simpl. fold out.
    apply Forall_fmap, Forall_forall. intros e _. simpl.
    destruct (Dagre.edge_points out _ _); simpl; [|done].
    by rewrite length_fmap.
  - subst layout. unfold computeLayout. simpl. fold out.
    intros e1 e2 H1 H2.
    apply list_elem_of_fmap in H1 as (f1 & -> & _).
    apply list_elem_of_fmap in H2 as (f2 & -> & _). simpl.
    by intros -> ->.
Qed.

Lemma computeLayout_positions_and_routes_witness :
  LayoutEdge.points
    (LayoutEdge.mk "1" "2" "ON_CLICK" "NAVIGATE"
       [Point.mk 344 146; Point.mk 404 146; Point.mk 464 146])
  = LayoutEdge.points
      (LayoutEdge.mk "1" "2" "ON_HOVER" "OVERLAY"
         [Point.mk 344 146; Point.mk 404 146; Point.mk 464 146]).
Proof.
  destruct (computeLayout_positions_and_routes Examples.rowEngine
              (FlowGraph.mk
                 [FlowNode.mk "1" "Home" 375 812;
                  FlowNode.mk "2" "Details" 375 812]
                 [FlowEdge.mk "1" "2" "ON_CLICK" "NAVIGATE";
                  FlowEdge.mk "1" "2" "ON_HOVER" "OVERLAY"]
                 ["1"]) LR) as (_ & _ & Hsame).
  apply Hsame; [| | reflexivity | reflexivity].
  - apply list_elem_of_here.
  - apply list_elem_of_further, list_elem_of_here.
Defined.

(* ===================================================================== *)
(** * Extraction, layout and composition together *)
(* ===================================================================== *)

Lemma computeLayout_ids dagre graph d :
  LayoutNode.id <$> LayoutResult.nodes (computeLayout dagre graph d)
  = FlowNode.id <$> FlowGraph.nodes graph.
Proof. unfold computeLayout. simpl. by rewrite <- list_fmap_compose. Qed.

Lemma filter_all {A} (P : A → Prop) `{!∀ x, Decision (P x)} (l : list A) :
  Forall P l → filter P l = l.
Proof.
  induction 1 as [|x l Hx _ IH]; [done|].
  by rewrite filter_cons_True, IH.
Qed.

(** X17. Scanning a page, laying the graph out with any engine in either
    direction and composing the result under any tier draws every transition:
    there is one card per extracted node and one arrow per extracted edge,
    none is skipped for a missing card. *)
Theorem every_transition_is_drawn (figma : Figma) (dagre : Dagre.Engine)
    (direction : Direction) (tier : TierConfig.t) :
  let graph := scanPrototypeConnections figma in
  let layout := computeLayout dagre graph direction in
  length (cards layout) = length (FlowGraph.nodes graph)
  ∧ size (cardMap layout) = length (FlowGraph.nodes graph)
  ∧ length (diagramArrows tier layout) = length (FlowGraph.edges graph).
Proof.
  intros graph layout.
  pose proof (computeLayout_ids dagre graph direction) as Hids.
  fold layout in Hids.
  destruct (scan_state_ok figma) as [Hm He].
  assert (FlowNode.id <$> FlowGraph.nodes graph
          = JsMap.keys (nodeMap (walkAll figma (page_children (currentPage figma))
                                   (mkScan JsMap.empty [])))) as Hkeys
    by (by apply map_ok_ids).
  split; [|split].
  - unfold cards. rewrite length_fmap.
    by rewrite <- (length_fmap LayoutNode.id), Hids, length_fmap.
  - assert (dom (cardMap layout)
            = list_to_set (LayoutNode.id <$> LayoutResult.nodes layout)) as Hdom.
    { apply set_eq. intros k.
      by rewrite elem_of_dom, cardMap_is_Some, elem_of_list_to_set. }
    rewrite <- size_dom, Hdom, Hids, size_list_to_set, length_fmap; [done|].
    rewrite Hkeys. apply Hm.
  - unfold diagramArrows. rewrite length_omap_filter.
    rewrite filter_all.
    + subst layout. unfold computeLayout. simpl. by rewrite length_fmap.
    + apply Forall_forall. intros e Hin.
      apply edgeArrow_is_Some. unfold hasCards. rewrite Hids, Hkeys.
      subst layout. unfold computeLayout in Hin. simpl in Hin.
      apply list_elem_of_fmap in Hin as (fe & -> & Hfe). simpl.
      rewrite Forall_forall in He.
      destruct (He fe Hfe) as (_ & Hs & Ht). by split.
Qed.

Lemma Math_round_le (q1 q2 : Q) :
  (q1 <= q2)%Q → Math_round q1 ≤ Math_round q2.
Proof.
  intros H. unfold Math_round. apply Qfloor_resp_le. Lqa.lra.
Qed.

Lemma Math_round_gap (q1 q2 : Q) (k : Z) :
  (q1 + inject_Z k <= q2)%Q → Math_round q1 + k ≤ Math_round q2.
Proof.
  intros H.
  replace (Math_round q1 + k) with (Math_round q1 - (- k)) by lia.
  rewrite <- Math_round_shift. apply Math_round_le.
  rewrite inject_Z_opp. Lqa.lra.
Qed.

(** What the contract of the engine gives for an edge on no cycle. *)
Lemma engine_separation dagre graph d (a b : FlowNode.t) :
  a ∈ FlowGraph.nodes graph →
  b ∈ FlowGraph.nodes graph →
  transition graph (FlowNode.id a) (FlowNode.id b) →
  ¬ on_cycle graph (FlowNode.id a) (FlowNode.id b) →
  Dagre.ranks_follow_edges dagre (dagreInput graph d) →
  (Dagre.primary d (dagre (dagreInput graph d)) (FlowNode.id a)
   + inject_Z (match d with LR => 444 | TB => 372 end)
   <= Dagre.primary d (dagre (dagreInput graph d)) (FlowNode.id b))%Q.
Proof.
  intros Ha Hb Hedge Hacyclic Hcontract.
  destruct (dagreInput_label graph d a Ha) as (lv & Hlv & Hwv & Hhv).
  destruct (dagreInput_label graph d b Hb) as (lw & Hlw & Hww & Hhw).
  assert (¬ Dagre.reaches (dagreInput graph d) (FlowNode.id b) (FlowNode.id a))
    as Hnot.
  { intros Hreach. apply Hacyclic. unfold on_cycle.
    by apply (dagreInput_reaches graph d). }
  pose proof (Hcontract (FlowNode.id a) (FlowNode.id b) lv lw
                (proj2 (dagreInput_edge graph d _ _) Hedge) Hnot Hlv Hlw) as H.
  destruct d; simpl in H.
  - rewrite Hwv, Hww in H. unfold CARD_W in H.
    change (inject_Z (324 + 324) / 2)%Q with (648 # 2)%Q in H.
    change (inject_Z 120) with 120%Q in H.
    change (inject_Z 444) with 444%Q. simpl. Lqa.lra.
  - rewrite Hhv, Hhw in H. unfold CARD_H in H.
    change (inject_Z (252 + 252) / 2)%Q with (504 # 2)%Q in H.
    change (inject_Z 120) with 120%Q in H.
    change (inject_Z 372) with 372%Q. simpl. Lqa.lra.
Qed.

Section WellDefined.
#[local] Open Scope R_scope.

Lemma createArrow_well_defined (x1 y1 x2 y2 : R) (color : RGB) :
  (x1, y1) ≠ (x2, y2) →
  well_defined (createArrow (Fin x1) (Fin y1) (Fin x2) (Fin y2) color).
Proof.
  intros Hd.
  destruct (pointsX_min x1 y1 x2 y2) as (mx & Hmx & _).
  destruct (pointsY_min x1 y1 x2 y2) as (my & Hmy & _).
  rewrite (createArrow_real x1 y1 x2 y2 mx my color Hd Hmx Hmy).
  unfold well_defined, finite, realArrow, pathXs, pathYs. simpl.
  split; [by eexists|]. split; [by eexists|].
  split; repeat (constructor; [by eexists|]); constructor.
Qed.
End WellDefined.

(** X18. Let the layout engine keep its contract. An edge of the graph that
    lies on no cycle is drawn, in either direction and under any tier, as an
    arrow between two different anchor points: its position and all its path
    coordinates are finite numbers. *)
Theorem acyclic_edges_get_proper_arrows (dagre : Dagre.Engine)
    (graph : FlowGraph.t) (direction : Direction) (tier : TierConfig.t)
    (a b : FlowNode.t) (e : LayoutEdge.t) :
  a ∈ FlowGraph.nodes graph →
  b ∈ FlowGraph.nodes graph →
  transition graph (FlowNode.id a) (FlowNode.id b) →
  ¬ on_cycle graph (FlowNode.id a) (FlowNode.id b) →
  Dagre.ranks_follow_edges dagre (dagreInput graph direction) →
  LayoutEdge.sourceId e = FlowNode.id a →
  LayoutEdge.targetId e = FlowNode.id b →
  ∃ v, edgeArrow tier (computeLayout dagre graph direction) e = Some v
       ∧ well_defined v.
Proof.
  intros Ha Hb Hedge Hacyclic Hcontract Hsrc Htgt.
  set (layout := computeLayout dagre graph direction).
  pose proof (engine_separation dagre graph direction a b
                Ha Hb Hedge Hacyclic Hcontract) as Hsep.
  pose proof (computeLayout_ids dagre graph direction) as Hids.
  fold layout in Hids.
  assert (FlowNode.id a ∈ LayoutNode.id <$> LayoutResult.nodes layout) as Hina.
  { rewrite Hids. apply list_elem_of_fmap. by exists a. }
  assert (FlowNode.id b ∈ LayoutNode.id <$> LayoutResult.nodes layout) as Hinb.
  { rewrite Hids. apply list_elem_of_fmap. by exists b. }
  apply cardMap_is_Some in Hina as [sc Hsc].
  apply cardMap_is_Some in Hinb as [tc Htc].
  destruct (cardMap_Some _ _ _ Hsc) as (na & Hna & Hida & ->).
  destruct (cardMap_Some _ _ _ Htc) as (nb & Hnb & Hidb & ->).
  destruct (computeLayout_node _ _ _ _ Hna) as [Hxa Hya].
  destruct (computeLayout_node _ _ _ _ Hnb) as [Hxb Hyb].
  rewrite Hida in Hxa, Hya. rewrite Hidb in Hxb, Hyb.
  assert (LayoutResult.nodes layout ≠ []) as Hnonempty.
  { intros Hnil. rewrite Hnil in Hna. by apply elem_of_nil in Hna. }
  destruct (minX_Fin layout Hnonempty) as (mx & Hmx & _).
  destruct (minY_Fin layout Hnonempty) as (my & Hmy & _).
  unfold edgeArrow. rewrite Hsrc, Htgt, Hsc, Htc.
  cbn [mbind option_bind]. unfold makeCard. rewrite Hmx, Hmy.
  unfold Js.of_Z. cbn [card_x card_y card_width card_height].
  cbn [Js.add Js.sub Js.neg].
  rewrite !div_Fin_pos by (unfold THUMB_H, CARD_PADDING; simpl; lra).
  cbn [Js.add].
  eexists. split; [reflexivity|].
  apply createArrow_well_defined.
  intros Heq. injection Heq as Hx Hy.
  destruct direction; simpl in Hsep.
  - assert (LayoutNode.x na + 444 ≤ LayoutNode.x nb) as Hgap.
    { rewrite Hxa, Hxb. apply Math_round_gap.
      unfold CARD_W. change (inject_Z 324 / 2)%Q with (324 # 2)%Q.
      change (inject_Z 444) with 444%Q in *. Lqa.lra. }
    apply IZR_le in Hgap. rewrite plus_IZR in Hgap.
    change (IZR (THUMB_W + CARD_PADDING * 2)) with 324%R in Hx. lra.
  - assert (LayoutNode.y na + 372 ≤ LayoutNode.y nb) as Hgap.
    { rewrite Hya, Hyb. apply Math_round_gap.
      unfold CARD_H. change (inject_Z 252 / 2)%Q with (252 # 2)%Q.
      change (inject_Z 372) with 372%Q in *. Lqa.lra. }
    apply IZR_le in Hgap. rewrite plus_IZR in Hgap.
    lra.
Qed.

Lemma acyclic_edges_get_proper_arrows_witness :
  ∃ v, edgeArrow TIERS.pro
         (computeLayout Examples.rowEngine Examples.twoCards LR)
         (LayoutEdge.mk "1" "2" "ON_CLICK" "NAVIGATE" [])
       = Some v
       ∧ well_defined v.
Proof.
  apply (acyclic_edges_get_proper_arrows Examples.rowEngine Examples.twoCards
           LR TIERS.pro
           (FlowNode.mk "1" "Home" 375 812)
           (FlowNode.mk "2" "Details" 375 812)).
  - apply list_elem_of_here.
  - apply list_elem_of_further, list_elem_of_here.
  - eexists. split; [apply list_elem_of_here|]. split; reflexivity.
  - unfold on_cycle. intros Hcycle.
    assert (∀ w, ¬ transition Examples.twoCards "2" w) as Hstuck.
    { intros w (e & He & Hsrc & _).
      apply list_elem_of_singleton in He. subst e. discriminate Hsrc. }
    inversion Hcycle as [? ? Hstep|? ? ? Hstep _]; exact (Hstuck _ Hstep).
  - apply twoCards_contract.
  - reflexivity.
  - reflexivity.
Defined.

(* ===================================================================== *)
(** * Properties of the plugin window *)
(* ===================================================================== *)

Set Warnings "-clear-no-such-hyp".

Lemma run_snoc dagre events ev :
  Ui.run dagre (events ++ [ev]) =
  let acc := Ui.run dagre events in
  let r := Ui.step dagre acc.1 ev in (r.1, (acc.2 ++ r.2)%list).
Proof. unfold Ui.run. by rewrite foldl_app. Qed.


Lemma graphsReceived_snoc events ev :
  Ui.graphsReceived (events ++ [ev]) =
  (Ui.graphsReceived events ++
   match ev with Ui.Receive (Some (Ui.Graph g)) => [g] | _ => [] end)%list.
Proof.
  unfold Ui.graphsReceived. rewrite omap_app. f_equal.
  by destruct ev as [| | | | |  |[[]|]].
Qed.


Lemma directionsChosen_snoc events ev :
  Ui.directionsChosen (events ++ [ev]) =
  (Ui.directionsChosen events ++
   match ev with Ui.ClickDirection d => [d] | _ => [] end)%list.
Proof.
  unfold Ui.directionsChosen. rewrite omap_app. f_equal. by destruct ev.
Qed.

Lemma tiersChosen_snoc events ev :
  Ui.tiersChosen (events ++ [ev]) =
  (Ui.tiersChosen events ++
   match ev with Ui.ClickTier b => [Ui.data_tier b] | _ => [] end)%list.
Proof.
  unfold Ui.tiersChosen. rewrite omap_app. f_equal. by destruct ev.
Qed.

(** The three variables of the window hold what was written last. *)
Lemma window_variables dagre events :
  let s := (Ui.run dagre events).1 in
  Ui.currentGraph s = last (Ui.graphsReceived events)
  ∧ Ui.currentDirection s = default LR (last (Ui.directionsChosen events))
  ∧ Ui.currentTier s = default "free" (last (Ui.tiersChosen events)).
Proof.
  induction events as [|ev events IH] using rev_ind; [done|].
  rewrite run_snoc, graphsReceived_snoc, directionsChosen_snoc,
    tiersChosen_snoc.
  cbn zeta in *. set (s := (Ui.run dagre events).1) in *.
  destruct IH as (Hgraph & Hdir & Htier).
  destruct ev as [| | | | d | btn | [[g| | | |]|]];
    cbn [Ui.step Ui.onmessage fst snd];
    rewrite ?app_nil_r, ?last_snoc; try done.
  - destruct (Ui.currentGraph s) eqn:Hcur; cbn [fst]; by rewrite Hcur.
  - by destruct (decide (Ui.currentTier s = "pro")).
  - by destruct btn.
Qed.

(** X20. After any sequence of clicks and messages, the listener of the
    Generate button leaves the window as it is and sends nothing when no graph
    has ever arrived; otherwise it sends one generate request, with the
    layout of the graph received last (also when it arrived before the last
    rendering) in the direction chosen last (LR when none was chosen). *)
Theorem generate_sends_latest_graph dagre events :
  let s := (Ui.run dagre events).1 in
  let direction := default LR (last (Ui.directionsChosen events)) in
  Ui.step dagre s Ui.ClickGenerate =
  (s, match last (Ui.graphsReceived events) with
      | None => []
      | Some graph =>
          [Ui.PostMessage
             (Ui.Generate (computeLayout dagre graph direction) direction);
           Ui.ShowStatus "Generating diagram..." Ui.st_info]
      end).
Proof.
  destruct (window_variables dagre events) as (Hgraph & Hdir & _).
  cbn zeta in *. cbn [Ui.step]. rewrite Hgraph, Hdir.
  by destruct (last (Ui.graphsReceived events)).
Qed.

Lemma posted_app effects1 effects2 :
  Ui.posted (effects1 ++ effects2) =
  (Ui.posted effects1 ++ Ui.posted effects2)%list.
Proof. apply omap_app. Qed.

(** A click or a message makes the window post at most one request; the
    tier of the plugin follows the tier of the window through it. *)
Lemma step_posted dagre s ev tier :
  tier = lookupTier (Ui.currentTier s) →
  let r := Ui.step dagre s ev in
  (Ui.posted r.2 = [] ∧ Ui.currentTier r.1 = Ui.currentTier s)
  ∨ (∃ req, Ui.posted r.2 = [req]
            ∧ tierAfter tier req = lookupTier (Ui.currentTier r.1)
            ∧ (req = Ui.Export Exporter.pdf → Ui.currentTier s = "pro")).
Proof.
  intros Htier.
  destruct ev as [| | | | d | b | [[g| | | |]|]];
    cbn [Ui.step Ui.onmessage fst snd].
  all: try (left; done).
  - right. by eexists.
  - destruct (Ui.currentGraph s); [right; by eexists|by left].
  - right. by eexists.
  - destruct (decide (Ui.currentTier s = "pro")); [right; by eexists|by left].
  - right. destruct b; by eexists.
Qed.

Lemma exportDiagram_passes_gate base64Encode diagramPage tier format :
  TierConfig.pdfExport tier = true →
  Exporter.PostMessage (Exporter.Error "PDF export is a Pro feature.")
  ∉ Exporter.exportDiagram base64Encode diagramPage tier format.
Proof.
  intros Hpdf. unfold Exporter.exportDiagram.
  destruct diagramPage as [children|]; [|set_solver].
  destruct (head _ ≫= Exporter.child_exportAsync) as [exportAsync|];
    [|set_solver].
  rewrite Hpdf, andb_false_r.
  destruct (exportAsync _); set_solver.
Qed.

(** X21. Requests are handled in the order in which the window posts them.
    After any sequence of clicks and messages the tier of the plugin is the
    one that belongs to the tier of the window; and whenever the window
    posts a PDF export request, the plugin handles it under a tier with PDF
    export, so [exportDiagram] never answers it with the Pro-feature error. *)
Theorem plugin_tier_follows_window dagre events :
  let s := (Ui.run dagre events).1 in
  let requests := Ui.posted (Ui.run dagre events).2 in
  foldl tierAfter TIERS.free requests = lookupTier (Ui.currentTier s)
  ∧ ∀ pre post, requests = (pre ++ Ui.Export Exporter.pdf :: post)%list →
      let tier := foldl tierAfter TIERS.free pre in
      TierConfig.pdfExport tier = true
      ∧ ∀ base64Encode diagramPage,
          Exporter.PostMessage
            (Exporter.Error "PDF export is a Pro feature.")
          ∉ Exporter.exportDiagram base64Encode diagramPage tier
              Exporter.pdf.
Proof.
  cbn zeta.
  assert (foldl tierAfter TIERS.free (Ui.posted (Ui.run dagre events).2)
          = lookupTier (Ui.currentTier (Ui.run dagre events).1)
          ∧ ∀ pre post,
              Ui.posted (Ui.run dagre events).2
              = (pre ++ Ui.Export Exporter.pdf :: post)%list →
              TierConfig.pdfExport (foldl tierAfter TIERS.free pre) = true)
    as [Htier Hgate].
  { induction events as [|ev events IH] using rev_ind.
    - split; [done|]. intros [|] ? Heq; discriminate Heq.
    - rewrite run_snoc. cbn zeta. cbn [fst snd]. rewrite posted_app.
      destruct IH as [Htier Hgate].
      destruct (step_posted dagre (Ui.run dagre events).1 ev _ Htier)
        as [[Hnone Hsame]|(req & Hone & Hafter & Hpdf)]; cbn zeta in *.
      + rewrite Hnone, app_nil_r, Hsame. by split.
      + rewrite Hone, foldl_app. cbn [foldl]. split; [by rewrite Htier in *|].
        intros pre post Heq.
        destruct post as [|x post _] using rev_ind.
        * apply (app_inj_tail _ pre) in Heq as [<- ->].
          rewrite Htier, (Hpdf eq_refl). reflexivity.
        * rewrite app_comm_cons, app_assoc in Heq.
          apply app_inj_tail in Heq as [Heq _]. by eapply Hgate. }
  split; [done|]. intros pre post Heq.
  split; [by eapply Hgate|]. intros base64Encode diagramPage.
  apply exportDiagram_passes_gate. by eapply Hgate.
Qed.

Lemma plugin_tier_follows_window_witness :
  TierConfig.pdfExport (foldl tierAfter TIERS.free [Ui.SetTier "pro"]) = true
  ∧ ∀ base64Encode diagramPage,
      Exporter.PostMessage (Exporter.Error "PDF export is a Pro feature.")
      ∉ Exporter.exportDiagram base64Encode diagramPage
          (foldl tierAfter TIERS.free [Ui.SetTier "pro"]) Exporter.pdf.
Proof.
  destruct (plugin_tier_follows_window Examples.rowEngine
              [Ui.ClickTier Ui.toggle_pro; Ui.ClickExportPdf]) as [_ Hgate].
  apply (Hgate [Ui.SetTier "pro"] []). reflexivity.
Defined.



